(** * HandTracking: gesture classifier, drawing canvas and bird-hit game

    A shallow embedding of the TypeScript sources of the repository:

    - [handGameUtils]  : src/handGameUtils.ts ([Bird], [randomBird], [dist],
                         [isOnlyOneFingerUp]);
    - [BirdGame]       : the bird-hit [HandCanvas] component (timer, game tick,
                         redraw callback, hit detection);
    - [Drawing]        : src/HandCanvas.tsx, the gesture-driven drawing canvas;
    - [Sketch]         : the first drawing canvas, which has no gestures and
                         clears the path when the fingertip enters the button.

    Conventions of the embedding.

    - A JavaScript [number] is an exact rational ([Q]); counters, seconds and
      [Date.now()] milliseconds, which only ever hold integers, are [Z].
      Rounding of binary64 arithmetic, [NaN] and the infinities are outside
      the model.
    - [Math.sqrt] is kept symbolic ([root]); the program only compares a
      square root with a bound, and [root_ltb] decides that comparison
      exactly.
    - Reading a property of [undefined] raises [TypeError]; code that can do
      so returns a [completion].
    - Refs and React state live in one record per component.  React runs
      the functional state updates ([setScore (s => s + 1)]) that a callback
      has queued after the callback, in the order of their queueing; the
      model applies them in that order and takes what their closures read
      at that moment as inputs of the callback: the clock value of
      [Date.now()], and, for the pop update of the hit test, whether the
      30 ms tick has moved the entity since ([Applied]).  Assignments to
      refs ([bird.hit = true]) take effect where they are written.
    - [Math.random()] is an input: the three draws of [randomBird] are passed
      in, in the order in which the source makes them.
    - An effect registers its callback again whenever a state value the
      callback captures changes, so a callback reads the current values.
    - Canvas painting and the display-only [infoMessage] are left out. *)

From Stdlib Require Import QArith Qround Qreals Lqa ZArith List Bool Lia.
From Stdlib Require Import Reals Lra.
From Stdlib Require String DecimalString.
Import ListNotations.

Local Open Scope Q_scope.

(** ** Numbers *)

Abbreviation number := Q (only parsing).

(** [a < b] and [a > b] on numbers, as booleans. *)
Definition Qltb (a b : number) : bool := negb (Qle_bool b a).
Definition Qgtb (a b : number) : bool := Qltb b a.

(** The value of [Math.sqrt(radicand)]. *)
Inductive root : Type := Sqrt (radicand : number).

(** [Math.sqrt(s) < c]: a square root is never negative, so the bound must be
    positive, and then both sides can be squared. *)
Definition root_ltb (r : root) (c : number) : bool :=
  match r with
  | Sqrt s => Qltb 0 c && Qltb s (c * c)
  end.

(** ** Abrupt completion *)

Inductive JsError : Type := TypeError.

Inductive completion (A : Type) : Type :=
| Normal (a : A)
| Throw (e : JsError).
Arguments Normal {A} a.
Arguments Throw {A} e.

Definition cbind {A B : Type} (m : completion A) (k : A -> completion B)
  : completion B :=
  match m with
  | Normal a => k a
  | Throw e => Throw e
  end.

Declare Scope js_scope.
Delimit Scope js_scope with js.
Notation "x <- m ;; k" := (cbind m (fun x => k))
  (at level 61, m at next level, right associativity) : js_scope.

(** A callback body: it mutates the component state [S] and either returns
    or throws; the state reached at the throw is kept. *)
Definition Eff (S A : Type) : Type := S -> completion A * S.

Definition ret {S A : Type} (a : A) : Eff S A := fun s => (Normal a, s).

Definition bind {S A B : Type} (m : Eff S A) (k : A -> Eff S B) : Eff S B :=
  fun s =>
    match m s with
    | (Normal a, s') => k a s'
    | (Throw e, s') => (Throw e, s')
    end.

Definition modify {S : Type} (f : S -> S) : Eff S unit :=
  fun s => (Normal tt, f s).

Definition getS {S : Type} : Eff S S := fun s => (Normal s, s).

Definition lift {S A : Type} (c : completion A) : Eff S A := fun s => (c, s).

(** [try { body } catch (err) { console.error(...) }] *)
Definition try_catch {S : Type} (body : Eff S unit) : S -> S :=
  fun s => snd (body s).

Declare Scope eff_scope.
Delimit Scope eff_scope with eff.
Notation "x <- m ;; k" := (bind m (fun x => k))
  (at level 61, m at next level, right associativity) : eff_scope.
Notation "m ;;; k" := (bind m (fun _ => k))
  (at level 61, right associativity) : eff_scope.

(** ** Landmarks delivered by the hand model *)

Module Landmark.
Record t : Type := mk { x : number; y : number }.
End Landmark.

Definition NormalizedLandmarkList : Type := list Landmark.t.

(** [landmarks[i].y]: [landmarks[i]] is [undefined] past the end of the
    array, and reading [.y] of [undefined] throws. *)
Definition at_y (landmarks : NormalizedLandmarkList) (i : nat)
  : completion number :=
  match nth_error landmarks i with
  | Some p => Normal (Landmark.y p)
  | None => Throw TypeError
  end.

Definition at_x (landmarks : NormalizedLandmarkList) (i : nat)
  : completion number :=
  match nth_error landmarks i with
  | Some p => Normal (Landmark.x p)
  | None => Throw TypeError
  end.

(** [Array.prototype.every]: stops at the first element that fails, and a
    throwing callback aborts it. *)
Fixpoint every {A : Type} (f : A -> completion bool) (l : list A)
  : completion bool :=
  match l with
  | [] => Normal true
  | a :: l' => (b <- f a ;; if b then every f l' else Normal false)%js
  end.

Record Results : Type :=
  { multiHandLandmarks : option (list NormalizedLandmarkList) }.

(** [results.multiHandLandmarks && results.multiHandLandmarks.length > 0],
    then [results.multiHandLandmarks[0]]. *)
Definition firstHand (results : Results) : option NormalizedLandmarkList :=
  match multiHandLandmarks results with
  | Some (landmarks :: _) => Some landmarks
  | _ => None
  end.

(** ** src/handGameUtils.ts *)

Module handGameUtils.

Record Bird : Type := mkBird
  { x : number; y : number; vx : number; vy : number;
    radius : number; hit : bool }.

Definition BIRD_RADIUS : number := 28.
Definition BIRD_SPEED : number := 4.5.

(** The three [Math.random()] draws of one [randomBird] call. *)
Record Draws : Type := mkDraws { r_side : number; r_y : number; r_vy : number }.

Definition randomBird (rnd : Draws) (width height : number) : Bird :=
  let fromLeft := Qgtb (r_side rnd) 0.5 in
  let y := 80 + r_y rnd * (height - 160) in
  {| x := if fromLeft then - BIRD_RADIUS else width + BIRD_RADIUS;
     y := y;
     vx := if fromLeft then BIRD_SPEED else - BIRD_SPEED;
     vy := (r_vy rnd - 0.5) * 1.2;
     radius := BIRD_RADIUS;
     hit := false |}.

Definition dist (x1 y1 x2 y2 : number) : root :=
  Sqrt ((x1 - x2) ^ 2 + (y1 - y2) ^ 2).

Definition isOnlyOneFingerUp (landmarks : NormalizedLandmarkList)
  : completion bool :=
  (y8 <- at_y landmarks 8 ;;
   y6 <- at_y landmarks 6 ;;
   let indexUp := Qltb y8 (y6 - 0.03) in
   othersDown <- every (fun tip =>
                          yt <- at_y landmarks tip ;;
                          yj <- at_y landmarks (tip - 2) ;;
                          Normal (Qgtb yt (yj + 0.03)))
                       [12; 16; 20]%nat ;;
   Normal (indexUp && othersDown))%js.

End handGameUtils.

(** ** The bird-hit [HandCanvas] component *)

Module BirdGame.
Import handGameUtils.

Definition GAME_DURATION : Z := 60.
Definition BIRD_RADIUS : number := 28.
Definition BIRD_SPEED : number := 4.5.
Definition BIRD_SPAWN_INTERVAL : Z := 1200.

Module Pop.
Record t : Type := mk { x : number; y : number; value : Z; time : Z }.
End Pop.

Record Dims : Type := mkDims { width : number; height : number }.

(** [useState] cells and refs of the component. *)
Record State : Type := mkState
  { score : Z;
    timer : Z;
    gameOver : bool;
    started : bool;
    pop : list Pop.t;
    birdsRef : list Bird;
    lastBirdSpawn : Z;
    lastHandLandmarks : option NormalizedLandmarkList;
    canvasDims : Dims }.

Definition setScore (f : Z -> Z) (s : State) : State :=
  mkState (f (score s)) (timer s) (gameOver s) (started s) (pop s)
          (birdsRef s) (lastBirdSpawn s) (lastHandLandmarks s) (canvasDims s).
Definition setTimer (f : Z -> Z) (s : State) : State :=
  mkState (score s) (f (timer s)) (gameOver s) (started s) (pop s)
          (birdsRef s) (lastBirdSpawn s) (lastHandLandmarks s) (canvasDims s).
Definition setGameOver (b : bool) (s : State) : State :=
  mkState (score s) (timer s) b (started s) (pop s)
          (birdsRef s) (lastBirdSpawn s) (lastHandLandmarks s) (canvasDims s).
Definition setStarted (b : bool) (s : State) : State :=
  mkState (score s) (timer s) (gameOver s) b (pop s)
          (birdsRef s) (lastBirdSpawn s) (lastHandLandmarks s) (canvasDims s).
Definition setPop (f : list Pop.t -> list Pop.t) (s : State) : State :=
  mkState (score s) (timer s) (gameOver s) (started s) (f (pop s))
          (birdsRef s) (lastBirdSpawn s) (lastHandLandmarks s) (canvasDims s).
Definition setBirds (bs : list Bird) (s : State) : State :=
  mkState (score s) (timer s) (gameOver s) (started s) (pop s)
          bs (lastBirdSpawn s) (lastHandLandmarks s) (canvasDims s).
Definition setLastBirdSpawn (t : Z) (s : State) : State :=
  mkState (score s) (timer s) (gameOver s) (started s) (pop s)
          (birdsRef s) t (lastHandLandmarks s) (canvasDims s).
Definition setLastHandLandmarks (l : option NormalizedLandmarkList)
           (s : State) : State :=
  mkState (score s) (timer s) (gameOver s) (started s) (pop s)
          (birdsRef s) (lastBirdSpawn s) l (canvasDims s).
Definition setCanvasDims (d : Dims) (s : State) : State :=
  mkState (score s) (timer s) (gameOver s) (started s) (pop s)
          (birdsRef s) (lastBirdSpawn s) (lastHandLandmarks s) d.

(** The component as first rendered at clock value [now] in a window of
    size [d]. *)
Definition initial (now : Z) (d : Dims) : State :=
  {| score := 0; timer := GAME_DURATION; gameOver := false; started := false;
     pop := []; birdsRef := []; lastBirdSpawn := now;
     lastHandLandmarks := None; canvasDims := d |}.

Definition handleClear (s : State) : State :=
  setBirds [] (setGameOver false (setTimer (fun _ => GAME_DURATION)
                                           (setScore (fun _ => 0%Z) s))).

(** The "Start Game" and "Play Again" buttons. *)
Definition startGame (s : State) : State := handleClear (setStarted true s).
Definition playAgain (s : State) : State := handleClear (setStarted false s).

Definition onResize (d : Dims) (s : State) : State := setCanvasDims d s.

(** The three periodic drivers and the model callback are installed by
    effects that begin with [if (!started || gameOver) return], or test
    it on entry; none of them runs outside a live session. *)
Definition live (s : State) : bool := started s && negb (gameOver s).

(** Body of the one-second interval: the updater passed to [setTimer]. *)
Definition timerTick (s : State) : State :=
  if live s then
    if (timer s <=? 1)%Z
    then setTimer (fun _ => 0%Z) (setGameOver true s)
    else setTimer (fun t => (t - 1)%Z) s
  else s.

(** The redraw callback: of its statements only the pruning of the pops
    changes the state. *)
Definition animate (now : Z) (s : State) : State :=
  if live s then
    setPop (filter (fun p => (now - Pop.time p <? 700)%Z)) s
  else s.

Definition moveBird (bird : Bird) : Bird :=
  mkBird (x bird + vx bird) (y bird + vy bird) (vx bird) (vy bird)
         (radius bird) (hit bird).

Definition inPlay (d : Dims) (b : Bird) : bool :=
  Qgtb (x b) (- BIRD_RADIUS) &&
  Qltb (x b) (width d + BIRD_RADIUS) &&
  Qgtb (y b) (- BIRD_RADIUS) &&
  Qltb (y b) (height d + BIRD_RADIUS) &&
  negb (hit b).

(** Body of the 30 ms interval. *)
Definition gameTick (now : Z) (rnd : Draws) (s : State) : State :=
  if live s then
    let d := canvasDims s in
    (* Move birds *)
    let s1 := setBirds (map moveBird (birdsRef s)) s in
    (* Remove birds out of bounds *)
    let s2 := setBirds (filter (inPlay d) (birdsRef s1)) s1 in
    (* Spawn new bird *)
    if (now - lastBirdSpawn s2 >? BIRD_SPAWN_INTERVAL)%Z
    then setLastBirdSpawn now
           (setBirds (birdsRef s2 ++ [randomBird rnd (width d) (height d)]) s2)
    else s2
  else s.

Definition markHit (bird : Bird) : Bird :=
  mkBird (x bird) (y bird) (vx bird) (vy bird) (radius bird) true.

(** When React runs the updates that [onResults] has queued: before the
    next game tick, or after it.  The update passed to [setPop] reads
    [bird.x], [bird.y] and [Date.now()] only then, and the tick moves the
    entities of the list in place, the hit ones too, before it drops these
    from the list; an entity that was hit is so moved once more at most. *)
Inductive Applied : Type := BeforeTick | AfterTick.

(** The entity as the [setPop] update finds it. *)
Definition seenAt (applied : Applied) (bird : Bird) : Bird :=
  match applied with
  | BeforeTick => bird
  | AfterTick => moveBird bird
  end.

(** [birdsRef.current.forEach(bird => ...)] of the hit check, bird by
    bird; [done] holds the birds already visited.  [now] is the clock value
    that the pop updates read. *)
Fixpoint hitLoop (fx fy : number) (now : Z) (applied : Applied)
         (todo done : list Bird) (s : State) : State :=
  match todo with
  | [] => setBirds done s
  | bird :: rest =>
      if negb (hit bird)
         && root_ltb (dist fx fy (x bird) (y bird)) (radius bird + 18)
      then
        let s1 := setScore (fun n => (n + 1)%Z) s in
        let s2 := setPop (fun pops =>
                            pops ++ [Pop.mk (x (seenAt applied bird))
                                            (y (seenAt applied bird))
                                            1 now]) s1 in
        hitLoop fx fy now applied rest (done ++ [markHit bird]) s2
      else hitLoop fx fy now applied rest (done ++ [bird]) s
  end.

Definition onResults (now : Z) (applied : Applied) (results : Results)
  : Eff State unit :=
  (s <- getS ;;
   if negb (started s) || gameOver s then ret tt
   else
     match firstHand results with
     | None => modify (setLastHandLandmarks None)
     | Some landmarks =>
         modify (setLastHandLandmarks (Some landmarks)) ;;;
         isOneFinger <- lift (isOnlyOneFingerUp landmarks) ;;
         if isOneFinger : bool then
           tipx <- lift (at_x landmarks 8) ;;
           tipy <- lift (at_y landmarks 8) ;;
           let d := canvasDims s in
           let x := (1 - tipx) * width d in
           let y := tipy * height d in
           modify (fun s' => hitLoop x y now applied (birdsRef s') [] s')
         else ret tt
     end)%eff.

End BirdGame.


(** ** Points of a drawn path, and the clear button of the drawing canvases *)

Module Point.
Record t : Type := mk { x : number; y : number }.
End Point.

Definition CANVAS_WIDTH : number := 640.
Definition CANVAS_HEIGHT : number := 480.
Definition BUTTON_WIDTH : number := 90.
Definition BUTTON_HEIGHT : number := 40.
Definition BUTTON_X : number := CANVAS_WIDTH - BUTTON_WIDTH - 16.
Definition BUTTON_Y : number := CANVAS_HEIGHT - BUTTON_HEIGHT - 16.

Definition isFingerInButton (x y : number) : bool :=
  Qgtb x BUTTON_X && Qltb x (BUTTON_X + BUTTON_WIDTH) &&
  Qgtb y BUTTON_Y && Qltb y (BUTTON_Y + BUTTON_HEIGHT).

(** ** src/HandCanvas.tsx: the gesture-driven drawing canvas *)

Module Drawing.

(** The values of the [gesture] state: ['drawing' | 'closed' | 'one_finger']. *)
Inductive GestureLabel : Type := drawing_ | closed | one_finger.

Record State : Type := mkState
  { pathRef : list Point.t;
    drawing : bool;
    showClear : bool;
    gesture : GestureLabel }.

Definition setPath (p : list Point.t) (s : State) : State :=
  mkState p (drawing s) (showClear s) (gesture s).
Definition setDrawing (b : bool) (s : State) : State :=
  mkState (pathRef s) b (showClear s) (gesture s).
Definition setShowClear (b : bool) (s : State) : State :=
  mkState (pathRef s) (drawing s) b (gesture s).
Definition setGesture (g : GestureLabel) (s : State) : State :=
  mkState (pathRef s) (drawing s) (showClear s) g.

Definition initial : State :=
  {| pathRef := []; drawing := false; showClear := false; gesture := drawing_ |}.

Definition handleClear (s : State) : State := setPath [] s.

Definition isHandClosed (landmarks : NormalizedLandmarkList)
  : completion bool :=
  every (fun tip =>
           yt <- at_y landmarks tip ;;
           yj <- at_y landmarks (tip - 2) ;;
           Normal (Qgtb yt (yj + 0.03)))%js
        [8; 12; 16; 20]%nat.

Definition isOnlyOneFingerUp (landmarks : NormalizedLandmarkList)
  : completion bool :=
  (y8 <- at_y landmarks 8 ;;
   y6 <- at_y landmarks 6 ;;
   let indexUp := Qltb y8 (y6 - 0.03) in
   othersDown <- every (fun tip =>
                          yt <- at_y landmarks tip ;;
                          yj <- at_y landmarks (tip - 2) ;;
                          Normal (Qgtb yt (yj + 0.03)))
                       [12; 16; 20]%nat ;;
   Normal (indexUp && othersDown))%js.

(** The statements of [hands.onResults] inside its [try] block. *)
Definition onResultsBody (results : Results) : Eff State unit :=
  match firstHand results with
  | None =>
      (modify (setDrawing false) ;;;
       modify (setShowClear false) ;;;
       modify (setGesture drawing_))%eff
  | Some landmarks =>
      (tipx <- lift (at_x landmarks 8) ;;
       tipy <- lift (at_y landmarks 8) ;;
       let x := tipx * CANVAS_WIDTH in
       let y := tipy * CANVAS_HEIGHT in
       (* Gesture detection *)
       isClosed <- lift (isHandClosed landmarks) ;;
       isOneFinger <- lift (isOnlyOneFingerUp landmarks) ;;
       (* Set gesture state and info message *)
       (if isClosed : bool then
          modify (setGesture closed) ;;; modify (setDrawing false)
        else if isOneFinger : bool then
          modify (setGesture one_finger)
        else
          modify (setGesture drawing_) ;;; modify (setDrawing false)) ;;;
       (* Drawing logic *)
       s <- getS ;;
       if isOneFinger : bool then
         if negb (drawing s) then
           modify (setPath [Point.mk x y]) ;;; modify (setDrawing true)
         else
           modify (setPath (pathRef s ++ [Point.mk x y]))
       else
         modify (setDrawing false))%eff
  end.

Definition onResults (results : Results) (s : State) : State :=
  try_catch (onResultsBody results) s.

(** [handleCanvasClick], at the click position relative to the canvas. *)
Definition handleCanvasClick (x y : number) (s : State) : State :=
  if isFingerInButton x y then handleClear s else s.

End Drawing.

(** ** The first drawing canvas: no gestures, fingertip-operated clear button *)

Module Sketch.

Record State : Type := mkState
  { pathRef : list Point.t;
    drawing : bool;
    showClear : bool }.

Definition setPath (p : list Point.t) (s : State) : State :=
  mkState p (drawing s) (showClear s).
Definition setDrawing (b : bool) (s : State) : State :=
  mkState (pathRef s) b (showClear s).
Definition setShowClear (b : bool) (s : State) : State :=
  mkState (pathRef s) (drawing s) b.

Definition initial : State :=
  {| pathRef := []; drawing := false; showClear := false |}.

(** Clear only the drawing path. *)
Definition handleClear (s : State) : State := setPath [] s.

Definition onResultsBody (results : Results) : Eff State unit :=
  match firstHand results with
  | None =>
      (modify (setDrawing false) ;;; modify (setShowClear false))%eff
  | Some landmarks =>
      (* Index finger tip is landmark 8 *)
      (tipx <- lift (at_x landmarks 8) ;;
       tipy <- lift (at_y landmarks 8) ;;
       let x := tipx * CANVAS_WIDTH in
       let y := tipy * CANVAS_HEIGHT in
       (* Check if finger tip is inside the clear button area *)
       (if isFingerInButton x y then
          modify (setShowClear true) ;;; modify handleClear
        else
          modify (setShowClear false)) ;;;
       (* Start drawing if not already *)
       s <- getS ;;
       if negb (drawing s) then
         modify (setPath [Point.mk x y]) ;;; modify (setDrawing true)
       else
         modify (setPath (pathRef s ++ [Point.mk x y])))%eff
  end.

Definition onResults (results : Results) (s : State) : State :=
  try_catch (onResultsBody results) s.

Definition handleCanvasClick (x y : number) (s : State) : State :=
  if isFingerInButton x y then handleClear s else s.

End Sketch.


(** ** Runs of the components, and the notions the properties are stated with *)

Module GameRun.
Import handGameUtils BirdGame.

(** [n] firings of the one-second interval. *)
Definition timerTicks (n : nat) (s : State) : State := Nat.iter n timerTick s.

(** Consecutive firings of the 30 ms interval; each comes with the clock
    value it reads and the random draws it would use for a spawn. *)
Definition gameTicks (inputs : list (Z * Draws)) (s : State) : State :=
  fold_left (fun s i => gameTick (fst i) (snd i) s) inputs s.

(** What one game tick does to one entity: move it, then keep it or not. *)
Definition tickBird (d : Dims) (b : Bird) : option Bird :=
  if inPlay d (moveBird b) then Some (moveBird b) else None.

(** The entities that one tick keeps of one entity, and appends. *)
Definition keepOne (d : Dims) (b : Bird) : list Bird :=
  match tickBird d b with
  | Some b' => [b']
  | None => []
  end.

Definition spawnedBy (now : Z) (rnd : Draws) (s : State) : list Bird :=
  if (now - lastBirdSpawn s >? BIRD_SPAWN_INTERVAL)%Z
  then [randomBird rnd (width (canvasDims s)) (height (canvasDims s))]
  else [].

Fixpoint ticksBird (d : Dims) (n : nat) (b : Bird) : option Bird :=
  match n with
  | O => Some b
  | S n' => match tickBird d b with
            | Some b' => ticksBird d n' b'
            | None => None
            end
  end.

Definition keptBirds (d : Dims) (n : nat) (bs : list Bird) : list Bird :=
  flat_map (fun b => match ticksBird d n b with
                     | Some b' => [b']
                     | None => []
                     end) bs.

(** The entity [n] moves later, bounds ignored. *)
Fixpoint movedBird (n : nat) (b : Bird) : Bird :=
  match n with
  | O => b
  | S n' => movedBird n' (moveBird b)
  end.

(** The position lies outside the open rectangle that the tick keeps. *)
Definition outOfBounds (d : Dims) (b : Bird) : Prop :=
  x b <= - BIRD_RADIUS \/ width d + BIRD_RADIUS <= x b
  \/ y b <= - BIRD_RADIUS \/ height d + BIRD_RADIUS <= y b.

(** Number of ticks after which a spawned entity has crossed a playfield of
    width [w]: [(w + 2 * radius) / 4.5], rounded up, and at least one. *)
Definition removalBound (w : number) : nat :=
  Z.to_nat (Z.max 1 (Qceiling ((w + 2 * BIRD_RADIUS) / BIRD_SPEED))).

(** The hit condition of one entity for the fingertip at [(fx, fy)]. *)
Definition qualifies (fx fy : number) (b : Bird) : bool :=
  negb (hit b) && root_ltb (dist fx fy (x b) (y b)) (radius b + 18).

(** What the hit check makes of one entity, and the Score-Pop Effect
    created for an entity that was hit at [b], by an update that React runs
    at clock value [now]: at the position of [b] if no tick has fired
    since, one move further if one has. *)
Definition hitOrSame (fx fy : number) (b : Bird) : Bird :=
  if qualifies fx fy b then markHit b else b.

Definition popOf (now : Z) (applied : Applied) (b : Bird) : Pop.t :=
  match applied with
  | BeforeTick => Pop.mk (x b) (y b) 1 now
  | AfterTick => Pop.mk (x b + vx b) (y b + vy b) 1 now
  end.

(** Euclidean distance, over the reals. *)
Definition euclid (x1 y1 x2 y2 : number) : R :=
  sqrt ((Q2R x1 - Q2R x2) ^ 2 + (Q2R y1 - Q2R y2) ^ 2)%R.

(** The mirrored fingertip screen position. *)
Definition fingerX (d : Dims) (tip : Landmark.t) : number :=
  (1 - Landmark.x tip) * width d.
Definition fingerY (d : Dims) (tip : Landmark.t) : number :=
  Landmark.y tip * height d.

(** The entity is wholly outside the visible area [0, w], on the left or on
    the right. *)
Definition outsideLeft (b : Bird) : Prop := x b + radius b <= 0.
Definition outsideRight (w : number) (b : Bird) : Prop := w <= x b - radius b.

(** A [Math.random()] result. *)
Definition unit_draw (r : number) : Prop := 0 <= r /\ r < 1.

End GameRun.

Module DrawRun.
Import Drawing.

Inductive Event : Type :=
| Frame (results : Results)
| Click (x y : number).

Definition step (s : State) (e : Event) : State :=
  match e with
  | Frame results => onResults results s
  | Click x y => handleCanvasClick x y s
  end.

Definition run (es : list Event) (s : State) : State := fold_left step es s.

(** The Gesture of a frame, by the precedence of [onResults]; a frame whose
    landmark reads throw has none. *)
Inductive Gesture : Type := no_hand | fist | one_finger_up | other.

Definition classify (results : Results) : completion Gesture :=
  match firstHand results with
  | None => Normal no_hand
  | Some landmarks =>
      (isClosed <- isHandClosed landmarks ;;
       isOneFinger <- isOnlyOneFingerUp landmarks ;;
       Normal (if isClosed : bool then fist
               else if isOneFinger : bool then one_finger_up
               else other))%js
  end.

(** The canvas position of the index fingertip of a frame. *)
Definition fingertip (results : Results) : option Point.t :=
  match firstHand results with
  | Some landmarks =>
      match nth_error landmarks 8 with
      | Some tip => Some (Point.mk (Landmark.x tip * CANVAS_WIDTH)
                                   (Landmark.y tip * CANVAS_HEIGHT))
      | None => None
      end
  | None => None
  end.

Definition oneFingerFrame (results : Results) : bool :=
  match classify results with
  | Normal one_finger_up => true
  | _ => false
  end.

Definition fingertips (frames : list Results) : list Point.t :=
  flat_map (fun r => match fingertip r with
                     | Some p => [p]
                     | None => []
                     end) frames.

(** How an event bears on strokes: a one-finger-up frame contributes its
    fingertip, any other classified frame ends the stroke, and a frame
    without a Gesture or a pointer click does neither. *)
Inductive View : Type := Stroke (p : Point.t) | Break | Ignored.

Definition view (e : Event) : View :=
  match e with
  | Click _ _ => Ignored
  | Frame results =>
      match classify results, fingertip results with
      | Normal one_finger_up, Some p => Stroke p
      | Throw _, _ => Ignored
      | _, _ => Break
      end
  end.

(** Over views listed newest first: the points of the run of strokes that
    starts at the head, and of the most recent run of strokes. *)
Fixpoint currentRun (vs : list View) : list Point.t :=
  match vs with
  | [] => []
  | Stroke p :: vs' => p :: currentRun vs'
  | Ignored :: vs' => currentRun vs'
  | Break :: _ => []
  end.

Fixpoint latestRun (vs : list View) : list Point.t :=
  match vs with
  | [] => []
  | Stroke p :: vs' => p :: currentRun vs'
  | _ :: vs' => latestRun vs'
  end.

(** Whether the newest views form a stroke that is still going on. *)
Fixpoint inStroke (vs : list View) : bool :=
  match vs with
  | Stroke _ :: _ => true
  | Ignored :: vs' => inStroke vs'
  | _ => false
  end.

(** The points of the most recent stroke of a history, oldest first. *)
Definition lastStroke (es : list Event) : list Point.t :=
  rev (latestRun (rev (map view es))).

Definition isClear (e : Event) : bool :=
  match e with
  | Click x y => isFingerInButton x y
  | Frame _ => false
  end.

(** The closed predicate on a finger: the tip lies below its mid-joint, by
    more than the margin or by at least the margin. *)
Definition foldedBeyond (landmarks : NormalizedLandmarkList) (tip : nat)
  : Prop :=
  exists pt pj, nth_error landmarks tip = Some pt
             /\ nth_error landmarks (tip - 2) = Some pj
             /\ Landmark.y pj + 0.03 < Landmark.y pt.

Definition foldedAtLeast (landmarks : NormalizedLandmarkList) (tip : nat)
  : Prop :=
  exists pt pj, nth_error landmarks tip = Some pt
             /\ nth_error landmarks (tip - 2) = Some pj
             /\ Landmark.y pj + 0.03 <= Landmark.y pt.

Definition fingertipIndices : list nat := [8; 12; 16; 20]%nat.

(** The test that [every] applies to one fingertip index. *)
Definition fingerDown (landmarks : NormalizedLandmarkList) (tip : nat)
  : completion bool :=
  (yt <- at_y landmarks tip ;;
   yj <- at_y landmarks (tip - 2) ;;
   Normal (Qgtb yt (yj + 0.03)))%js.

End DrawRun.

(** Sample data used by the examples below. *)

Definition flatHand (ys : list number) : NormalizedLandmarkList :=
  map (fun y => Landmark.mk 0.5 y) ys.

Definition oneHand (landmarks : NormalizedLandmarkList) : Results :=
  {| multiHandLandmarks := Some [landmarks] |}.

Definition noHand : Results := {| multiHandLandmarks := Some [] |}.

(** A 21-point hand with only the index finger up and its tip at the
    normalized position [(tx, ty)]; [ty] must be less than 0.47. *)
Definition pointingHand (tx ty : number) : NormalizedLandmarkList :=
  flatHand [0; 0; 0; 0; 0; 0; 0.5; 0] ++ [Landmark.mk tx ty] ++
  flatHand [0; 0.5; 0; 0.6; 0; 0.5; 0; 0.6; 0; 0.5; 0; 0.6].

(** A 21-point open hand with its index fingertip at [(tx, ty)]. *)
Definition openHand (tx ty : number) : NormalizedLandmarkList :=
  flatHand [0; 0; 0; 0; 0; 0; 0.5; 0] ++ [Landmark.mk tx ty] ++
  flatHand [0; 0.5; 0; 0.1; 0; 0.5; 0; 0.1; 0; 0.5; 0; 0.1].

(** A 21-point hand whose four fingertips lie exactly 0.03 below their
    mid-joints. *)
Definition marginHand : NormalizedLandmarkList :=
  flatHand [0; 0; 0; 0; 0; 0; 0; 0; 0.03; 0; 0; 0; 0.03; 0; 0; 0; 0.03;
            0; 0; 0; 0.03].

(** A list of 20 points: index up, middle and ring fingers down, and no
    point 20 for the little finger. *)
Definition twentyPoints : NormalizedLandmarkList :=
  flatHand [0; 0; 0; 0; 0; 0; 0.5; 0; 0.1; 0; 0.5; 0; 0.6; 0; 0.5; 0; 0.6;
            0; 0.5; 0].

(** ** The bird-hit component as a whole *)

Module Session.
Import handGameUtils BirdGame.

(** What can happen to the mounted component.  The "Start Game" button is
    rendered only while [!started], the "Play Again" button only while
    [gameOver && started]; a click on a button that is not there does not
    happen. *)
Inductive Event : Type :=
| ClickStart
| ClickPlayAgain
| TimerFired
| TickFired (now : Z) (rnd : Draws)
| RedrawFired (now : Z)
| ResultsArrived (now : Z) (applied : Applied) (results : Results)
| Resized (d : Dims).

Definition step (s : State) (e : Event) : State :=
  match e with
  | ClickStart => if negb (started s) then startGame s else s
  | ClickPlayAgain => if gameOver s && started s then playAgain s else s
  | TimerFired => timerTick s
  | TickFired now rnd => gameTick now rnd s
  | RedrawFired now => animate now s
  | ResultsArrived now applied results =>
      snd (onResults now applied results s)
  | Resized d => onResize d s
  end.

Definition run (es : list Event) (s : State) : State := fold_left step es s.

(** The events of the three periodic drivers and of the hand model. *)
Definition isDriver (e : Event) : bool :=
  match e with
  | TimerFired | TickFired _ _ | RedrawFired _ | ResultsArrived _ _ _ => true
  | ClickStart | ClickPlayAgain | Resized _ => false
  end.

(** The bookkeeping of a session that every reachable state satisfies. *)
Definition sessionInvariant (s : State) : Prop :=
  (0 <= score s)%Z
  /\ (gameOver s = true -> started s = true /\ timer s = 0%Z)
  /\ (gameOver s = false -> (1 <= timer s <= GAME_DURATION)%Z)
  /\ (started s = false ->
      birdsRef s = [] /\ score s = 0%Z /\ timer s = GAME_DURATION).

(** The constants that every entity in the list carries. *)
Definition spawnShaped (b : Bird) : Prop :=
  radius b = BIRD_RADIUS /\ (vx b = BIRD_SPEED \/ vx b = - BIRD_SPEED).

(** Entity by entity, what a hit test may change: the hit flag, upwards. *)
Definition sameButHit (b b' : Bird) : Prop :=
  x b' = x b /\ y b' = y b /\ vx b' = vx b /\ vy b' = vy b
  /\ radius b' = radius b /\ (hit b = true -> hit b' = true).

(** The number of entities that are hit in [after] and were not in
    [before]. *)
Definition newlyHit (before after : list Bird) : nat :=
  length (filter (fun bb => negb (hit (fst bb)) && hit (snd bb))
                 (combine before after)).

(** The entities of a list that are not hit, and the game ticks of a
    history. *)
Definition unhitCount (bs : list Bird) : nat :=
  length (filter (fun b => negb (hit b)) bs).

Definition isTick (e : Event) : bool :=
  match e with
  | TickFired _ _ => true
  | _ => false
  end.

Definition tickCount (es : list Event) : nat := length (filter isTick es).

End Session.

(** ** Painting *)

Module Painting.
Import String.

(** The calls and assignments made on the 2D context. *)
Inductive CanvasOp : Type :=
| save
| restore
| beginPath
| stroke
| moveTo (x y : number)
| lineTo (x y : number)
| setStrokeStyle (style : string)
| setFillStyle (style : string)
| setLineWidth (w : number)
| setGlobalAlpha (a : number)
| setFont (font : string)
| setTextAlign (align : string)
| setTextBaseline (baseline : string)
| strokeText (text : string) (x y : number)
| fillText (text : string) (x y : number).

(** [for (let i = ...; i < path.length; i++) ctx.lineTo(path[i].x, path[i].y)],
    with [n] iterations to go. *)
Fixpoint lineToLoop (path : list Point.t) (i n : nat)
  : completion (list CanvasOp) :=
  match n with
  | O => Normal []
  | S n' =>
      match nth_error path i with
      | Some p =>
          (ops <- lineToLoop path (S i) n' ;;
           Normal (lineTo (Point.x p) (Point.y p) :: ops))%js
      | None => Throw TypeError
      end
  end.

Definition lineToPoint (p : Point.t) : CanvasOp :=
  lineTo (Point.x p) (Point.y p).

(** [drawPath] of the drawing canvases. *)
Definition drawPath (path : list Point.t) : completion (list CanvasOp) :=
  if (1 <? List.length path)%nat then
    match nth_error path 0 with
    | Some p0 =>
        (ops <- lineToLoop path 1 (List.length path - 1) ;;
         Normal ([beginPath; moveTo (Point.x p0) (Point.y p0)] ++ ops ++
                 [setStrokeStyle "#2196f3"; setLineWidth 4; stroke]))%js
    | None => Throw TypeError
    end
  else Normal [].

(** ["" + n] for an integer [n]. *)
Definition numberToString (n : Z) : string :=
  DecimalString.NilZero.string_of_int (Z.to_int n).

(** [drawPop] of handDrawingUtils, at clock value [now]. *)
Definition drawPop (now : Z) (p : BirdGame.Pop.t) : list CanvasOp :=
  let age := inject_Z (now - BirdGame.Pop.time p) / 700 in
  [save;
   setGlobalAlpha (1 - age);
   setFont "bold 36px Segoe UI, Arial";
   setFillStyle "#43a047";
   setStrokeStyle "#fff";
   setLineWidth 3;
   setTextAlign "center";
   setTextBaseline "middle";
   strokeText (String.append "+" (numberToString (BirdGame.Pop.value p)))
              (BirdGame.Pop.x p) (BirdGame.Pop.y p - 40 - age * 40);
   fillText (String.append "+" (numberToString (BirdGame.Pop.value p)))
            (BirdGame.Pop.x p) (BirdGame.Pop.y p - 40 - age * 40);
   restore].

End Painting.

(** ** Runs of the first drawing canvas and more notions for the properties *)

Module SketchRun.
Import Sketch.

Definition run (frames : list Results) (s : State) : State :=
  fold_left (fun s r => onResults r s) frames s.

(** The frame shows a hand whose index fingertip is inside, or outside, the
    clear button. *)
Definition tipInButton (results : Results) : bool :=
  match DrawRun.fingertip results with
  | Some p => isFingerInButton (Point.x p) (Point.y p)
  | None => false
  end.

Definition tipOffButton (results : Results) : bool :=
  match DrawRun.fingertip results with
  | Some p => negb (isFingerInButton (Point.x p) (Point.y p))
  | None => false
  end.

End SketchRun.

Module Fingers.

(** The index fingertip lies above its mid-joint by more than the margin. *)
Definition indexRaised (landmarks : NormalizedLandmarkList) : Prop :=
  exists p8 p6, nth_error landmarks 8 = Some p8
             /\ nth_error landmarks 6 = Some p6
             /\ Landmark.y p8 < Landmark.y p6 - 0.03.

(** The points the classifiers read. *)
Definition readIndices : list nat := [6; 8; 10; 12; 14; 16; 18; 20]%nat.

(** Two landmark lists have the same [y] at an index, or both have no point
    there. *)
Definition sameY (l1 l2 : NormalizedLandmarkList) (i : nat) : Prop :=
  option_map Landmark.y (nth_error l1 i)
  = option_map Landmark.y (nth_error l2 i).

End Fingers.

(** * Properties *)

(** ** Comparisons on numbers *)

(** Linear arithmetic over the rationals and over the reals. *)
Ltac qlra := Lqa.lra.
Ltac rlra := Lra.lra.

Lemma Qltb_lt (a b : Q) : Qltb a b = true <-> a < b.
Proof.
  unfold Qltb. rewrite negb_true_iff.
  destruct (Qle_bool b a) eqn:E.
  - apply Qle_bool_iff in E. split; [discriminate | intro H; exfalso; qlra].
  - split; [intros _ | reflexivity].
    destruct (Qlt_le_dec a b) as [H | H]; [exact H | ].
    apply Qle_bool_iff in H. congruence.
Qed.

Lemma Qltb_ge (a b : Q) : Qltb a b = false <-> b <= a.
Proof.
  unfold Qltb. rewrite negb_false_iff. apply Qle_bool_iff.
Qed.

Lemma Qgtb_gt (a b : Q) : Qgtb a b = true <-> b < a.
Proof. apply Qltb_lt. Qed.

Lemma Qgtb_le (a b : Q) : Qgtb a b = false <-> a <= b.
Proof. apply Qltb_ge. Qed.

(** [root_ltb] decides the comparison of the real square root with the
    bound. *)
Lemma root_ltb_sqrt (s c : Q) :
  0 <= s -> (root_ltb (Sqrt s) c = true <-> (sqrt (Q2R s) < Q2R c)%R).
Proof.
  intro Hs. apply Qle_Rle in Hs. rewrite RMicromega.Q2R_0 in Hs.
  unfold root_ltb. rewrite andb_true_iff, !Qltb_lt. split.
  - intros [Hc Hsc]. apply Qlt_Rlt in Hc, Hsc.
    rewrite RMicromega.Q2R_0 in Hc. rewrite Q2R_mult in Hsc.
    rewrite <- (sqrt_square (Q2R c)) by rlra.
    apply sqrt_lt_1_alt. rlra.
  - intro H.
    assert (Hc : (0 < Q2R c)%R).
    { pose proof (sqrt_pos (Q2R s)). rlra. }
    split.
    + apply Rlt_Qlt. rewrite RMicromega.Q2R_0. exact Hc.
    + apply Rlt_Qlt. rewrite Q2R_mult.
      rewrite <- (sqrt_sqrt (Q2R s)) by exact Hs.
      apply Rmult_le_0_lt_compat; try apply sqrt_pos; exact H.
Qed.

(** ** The session timer *)

Section SessionTimer.
Import BirdGame GameRun.

Lemma timerTick_score (s : State) : score (timerTick s) = score s.
Proof.
  unfold timerTick. destruct (live s); [ | reflexivity].
  destruct (timer s <=? 1)%Z; reflexivity.
Qed.

Lemma timerTicks_score (n : nat) (s : State) :
  score (timerTicks n s) = score s.
Proof.
  induction n as [ | n IH]; [reflexivity | ].
  unfold timerTicks in *. simpl. rewrite timerTick_score. exact IH.
Qed.

Lemma timerTick_nonneg (s : State) :
  (0 <= timer s)%Z -> (0 <= timer (timerTick s))%Z.
Proof.
  intro H. unfold timerTick. destruct (live s); [ | exact H].
  destruct (Z.leb_spec (timer s) 1); simpl; lia.
Qed.

(** While more than [n] seconds remain, [n] ticks only count down. *)
Lemma timerTicks_countdown (n : nat) (s : State) :
  live s = true -> (Z.of_nat n < timer s)%Z ->
  live (timerTicks n s) = true
  /\ timer (timerTicks n s) = (timer s - Z.of_nat n)%Z.
Proof.
  intros Hlive. induction n as [ | n IH]; intro Hlt.
  - simpl. split; [exact Hlive | lia].
  - destruct IH as [IHl IHt]; [lia | ].
    unfold timerTicks in *. simpl.
    set (s' := Nat.iter n timerTick s) in *.
    unfold timerTick. rewrite IHl.
    destruct (Z.leb_spec (timer s') 1) as [Hle | Hgt]; [lia | ].
    split.
    + unfold live in *. simpl. exact IHl.
    + simpl. lia.
Qed.

(** The tick that finds one second left ends the session. *)
Lemma timerTick_last (s : State) :
  live s = true -> timer s = 1%Z ->
  timer (timerTick s) = 0%Z /\ gameOver (timerTick s) = true.
Proof.
  intros Hlive H1. unfold timerTick. rewrite Hlive, H1. simpl. split; reflexivity.
Qed.

Lemma timerTicks_S (n : nat) (s : State) :
  timerTicks (S n) s = timerTick (timerTicks n s).
Proof. reflexivity. Qed.

(** A live session with [n + 1] seconds left is over after [n + 1] ticks. *)
Lemma timerTicks_finish (n : nat) (s : State) :
  live s = true -> timer s = Z.of_nat (S n) ->
  timer (timerTicks (S n) s) = 0%Z /\ gameOver (timerTicks (S n) s) = true.
Proof.
  intros Hlive Ht.
  destruct (timerTicks_countdown n s Hlive) as [Hl Hn]; [lia | ].
  rewrite timerTicks_S. apply timerTick_last; [exact Hl | lia].
Qed.

(** C8.  A session started with 60 seconds, score 0 and not over: after
    exactly 60 timer ticks it is over with 0 seconds left and score 0;
    before that it is not over and the [k]-th tick leaves [60 - k] seconds;
    the tick that finds 1 second left sets 0 and game-over together; the
    time remaining is never negative; and no tick changes the score. *)
Theorem session_over_after_sixty_ticks (s : State) :
  started s = true -> gameOver s = false ->
  timer s = 60%Z -> score s = 0%Z ->
  (gameOver (timerTicks 60 s) = true
   /\ timer (timerTicks 60 s) = 0%Z
   /\ score (timerTicks 60 s) = 0%Z)
  /\ (forall k, (k < 60)%nat ->
        gameOver (timerTicks k s) = false
        /\ timer (timerTicks k s) = (60 - Z.of_nat k)%Z)
  /\ (forall s1, live s1 = true -> timer s1 = 1%Z ->
        timer (timerTick s1) = 0%Z /\ gameOver (timerTick s1) = true)
  /\ (forall k, (0 <= timer (timerTicks k s))%Z)
  /\ (forall s1, score (timerTick s1) = score s1).
Proof.
  intros Hst Hgo Ht Hsc.
  assert (Hlive : live s = true) by (unfold live; rewrite Hst, Hgo; reflexivity).
  assert (Hbefore : forall k, (k < 60)%nat ->
            live (timerTicks k s) = true
            /\ timer (timerTicks k s) = (60 - Z.of_nat k)%Z).
  { intros k Hk. rewrite <- Ht. apply timerTicks_countdown; [exact Hlive | lia]. }
  split; [ | split; [ | split; [ | split]]].
  - destruct (timerTicks_finish 59 s Hlive) as [H0 Hover];
      [rewrite Ht; reflexivity | ].
    rewrite timerTicks_score. auto.
  - intros k Hk. destruct (Hbefore k Hk) as [Hl Htk]. split; [ | exact Htk].
    unfold live in Hl. apply andb_true_iff in Hl. destruct Hl as [_ Hl].
    apply negb_true_iff in Hl. exact Hl.
  - exact timerTick_last.
  - intro k. induction k as [ | k IH].
    + simpl. rewrite Ht. lia.
    + rewrite timerTicks_S. apply timerTick_nonneg. exact IH.
  - exact timerTick_score.
Qed.

Lemma session_over_after_sixty_ticks_witness :
  let s := startGame (initial 0 (mkDims 640 480)) in
  gameOver (timerTicks 60 s) = true
  /\ timer (timerTicks 60 s) = 0%Z
  /\ score (timerTicks 60 s) = 0%Z.
Proof.
  intro s.
  exact (proj1 (session_over_after_sixty_ticks s
                  eq_refl eq_refl eq_refl eq_refl)).
Defined.

End SessionTimer.

(** ** The gesture classifier *)

Section Classifier.
Import Drawing DrawRun.

(** The two copies of [isOnlyOneFingerUp] are the same function. *)
Lemma isOnlyOneFingerUp_same (landmarks : NormalizedLandmarkList) :
  handGameUtils.isOnlyOneFingerUp landmarks = isOnlyOneFingerUp landmarks.
Proof. reflexivity. Qed.

Lemma at_y_short (landmarks : NormalizedLandmarkList) (i : nat) :
  (length landmarks <= i)%nat -> at_y landmarks i = Throw TypeError.
Proof.
  intro H. unfold at_y. apply nth_error_None in H. rewrite H. reflexivity.
Qed.

Lemma at_x_short (landmarks : NormalizedLandmarkList) (i : nat) :
  (length landmarks <= i)%nat -> at_x landmarks i = Throw TypeError.
Proof.
  intro H. unfold at_x. apply nth_error_None in H. rewrite H. reflexivity.
Qed.

Lemma at_y_full (landmarks : NormalizedLandmarkList) (i : nat) :
  (i < length landmarks)%nat -> exists v, at_y landmarks i = Normal v.
Proof.
  intro H. unfold at_y. apply nth_error_Some in H.
  destruct (nth_error landmarks i) as [p | ]; [eauto | congruence].
Qed.

Lemma fingerDown_full (landmarks : NormalizedLandmarkList) (tip : nat) :
  (tip < length landmarks)%nat ->
  exists b, fingerDown landmarks tip = Normal b.
Proof.
  intro H. unfold fingerDown.
  destruct (at_y_full landmarks tip H) as [yt ->].
  destruct (at_y_full landmarks (tip - 2)) as [yj ->]; [lia | ].
  simpl. eauto.
Qed.

Lemma every_full (landmarks : NormalizedLandmarkList) (tips : list nat) :
  Forall (fun tip => (tip < length landmarks)%nat) tips ->
  exists b, every (fingerDown landmarks) tips = Normal b.
Proof.
  induction 1 as [ | tip tips Htip _ IH]; simpl; [eauto | ].
  destruct (fingerDown_full landmarks tip Htip) as [b ->]. simpl.
  destruct b; [exact IH | eauto].
Qed.

Lemma isHandClosed_full (landmarks : NormalizedLandmarkList) :
  (21 <= length landmarks)%nat -> exists b, isHandClosed landmarks = Normal b.
Proof.
  intro H. apply (every_full landmarks [8; 12; 16; 20]%nat).
  repeat constructor; lia.
Qed.

Lemma isOnlyOneFingerUp_full (landmarks : NormalizedLandmarkList) :
  (21 <= length landmarks)%nat ->
  exists b, isOnlyOneFingerUp landmarks = Normal b.
Proof.
  intro H. unfold isOnlyOneFingerUp.
  destruct (at_y_full landmarks 8) as [y8 ->]; [lia | ].
  destruct (at_y_full landmarks 6) as [y6 ->]; [lia | ].
  destruct (every_full landmarks [12; 16; 20]%nat) as [b Hb];
    [repeat constructor; lia | ].
  unfold fingerDown in Hb. cbn [cbind].
  rewrite Hb. cbn [cbind]. eauto.
Qed.

Lemma isHandClosed_short (landmarks : NormalizedLandmarkList) :
  (length landmarks <= 8)%nat -> isHandClosed landmarks = Throw TypeError.
Proof.
  intro H. unfold isHandClosed. simpl.
  rewrite (at_y_short landmarks 8 H). reflexivity.
Qed.

Lemma isOnlyOneFingerUp_short (landmarks : NormalizedLandmarkList) :
  (length landmarks <= 8)%nat -> isOnlyOneFingerUp landmarks = Throw TypeError.
Proof.
  intro H. unfold isOnlyOneFingerUp.
  rewrite (at_y_short landmarks 8 H). reflexivity.
Qed.

Lemma every_cons_true {A : Type} (f : A -> completion bool) (a : A)
      (l : list A) :
  every f (a :: l) = Normal true ->
  f a = Normal true /\ every f l = Normal true.
Proof.
  simpl. destruct (f a) as [[ | ] | e]; simpl; intro H;
    [auto | discriminate | discriminate].
Qed.

Lemma fingerDown_true (landmarks : NormalizedLandmarkList) (tip : nat) :
  fingerDown landmarks tip = Normal true ->
  exists yt yj, at_y landmarks tip = Normal yt
             /\ at_y landmarks (tip - 2) = Normal yj
             /\ yj + 0.03 < yt.
Proof.
  unfold fingerDown.
  destruct (at_y landmarks tip) as [yt | e]; [ | discriminate].
  destruct (at_y landmarks (tip - 2)) as [yj | e]; [ | discriminate].
  simpl. intro H. injection H as H. apply Qgtb_gt in H. eauto.
Qed.

Lemma isOnlyOneFingerUp_true (landmarks : NormalizedLandmarkList) :
  isOnlyOneFingerUp landmarks = Normal true ->
  exists y8 y6, at_y landmarks 8 = Normal y8
             /\ at_y landmarks 6 = Normal y6
             /\ y8 < y6 - 0.03.
Proof.
  unfold isOnlyOneFingerUp.
  destruct (at_y landmarks 8) as [y8 | e]; [ | discriminate].
  destruct (at_y landmarks 6) as [y6 | e]; [ | discriminate].
  cbn [cbind].
  match goal with
  | |- cbind ?m _ = _ -> _ => destruct m as [b | e]; [ | discriminate]
  end.
  cbn [cbind]. intro H. injection H as H.
  apply andb_true_iff in H. destruct H as [H _].
  apply Qltb_lt in H. eauto.
Qed.

(** The closed test of the index finger contradicts the index-up test. *)
Lemma closed_excludes_one_finger (landmarks : NormalizedLandmarkList) :
  isHandClosed landmarks = Normal true ->
  isOnlyOneFingerUp landmarks = Normal true -> False.
Proof.
  intros Hc Ho.
  apply (every_cons_true (fingerDown landmarks)) in Hc.
  destruct Hc as [Hc _].
  apply fingerDown_true in Hc. destruct Hc as (yt & yj & Ht & Hj & Hlt).
  apply isOnlyOneFingerUp_true in Ho. destruct Ho as (y8 & y6 & H8 & H6 & Hup).
  simpl in Hj. rewrite Ht in H8. rewrite Hj in H6.
  injection H8 as <-. injection H6 as <-. qlra.
Qed.

(** What a frame does to the drawing canvas, by its Gesture. *)
Lemma onResults_classified (results : Results) (s : State) :
  onResults results s =
  match classify results, fingertip results with
  | Throw _, _ => s
  | Normal no_hand, _ => mkState (pathRef s) false false drawing_
  | Normal fist, _ => mkState (pathRef s) false (showClear s) closed
  | Normal other, _ => mkState (pathRef s) false (showClear s) drawing_
  | Normal one_finger_up, Some p =>
      mkState (if drawing s then pathRef s ++ [p] else [p]) true
              (showClear s) one_finger
  | Normal one_finger_up, None => s
  end.
Proof.
  unfold onResults, try_catch, onResultsBody, classify, fingertip.
  destruct (firstHand results) as [landmarks | ]; [ | reflexivity].
  unfold at_x, at_y at 1.
  destruct (nth_error landmarks 8) as [tip | ] eqn:E8.
  - cbv beta iota delta [bind lift modify getS ret cbind snd].
    pose proof (closed_excludes_one_finger landmarks) as Hex.
    destruct (isHandClosed landmarks) as [[ | ] | e];
      destruct (isOnlyOneFingerUp landmarks) as [[ | ] | e'];
      try (exfalso; apply Hex; reflexivity);
      destruct s as [p [ | ] c g]; simpl; reflexivity.
  - assert (H : isHandClosed landmarks = Throw TypeError).
    { apply isHandClosed_short. apply nth_error_None. exact E8. }
    rewrite H. simpl. destruct s; reflexivity.
Qed.

(** C2, as the code has it.  On a landmark list of at least 21 points
    [isOnlyOneFingerUp] and [isHandClosed] return a boolean and do not
    throw.  They have no no-hand answer for a malformed list: on every list
    of fewer than 9 points both throw a [TypeError].  The drawing canvas
    catches it in [onResults] and leaves its state as it was; the bird-hit
    [onResults] has no handler and the exception leaves the callback. *)
Theorem classifier_returns_on_full_hand_throws_on_short :
  (forall landmarks, (21 <= length landmarks)%nat ->
     (exists b, isOnlyOneFingerUp landmarks = Normal b)
     /\ (exists b, isHandClosed landmarks = Normal b)
     /\ (exists b, handGameUtils.isOnlyOneFingerUp landmarks = Normal b))
  /\ (forall landmarks, (length landmarks <= 8)%nat ->
        isOnlyOneFingerUp landmarks = Throw TypeError
        /\ isHandClosed landmarks = Throw TypeError
        /\ handGameUtils.isOnlyOneFingerUp landmarks = Throw TypeError)
  /\ (forall landmarks s, (length landmarks <= 8)%nat ->
        onResults (oneHand landmarks) s = s)
  /\ (forall landmarks now applied g, (length landmarks <= 8)%nat ->
        BirdGame.live g = true ->
        fst (BirdGame.onResults now applied (oneHand landmarks) g)
        = Throw TypeError).
Proof.
  split; [ | split; [ | split]].
  - intros landmarks H.
    change (handGameUtils.isOnlyOneFingerUp landmarks)
      with (isOnlyOneFingerUp landmarks).
    auto using isOnlyOneFingerUp_full, isHandClosed_full.
  - intros landmarks H.
    change (handGameUtils.isOnlyOneFingerUp landmarks)
      with (isOnlyOneFingerUp landmarks).
    auto using isOnlyOneFingerUp_short, isHandClosed_short.
  - intros landmarks s H. rewrite onResults_classified.
    unfold classify. simpl. rewrite (isHandClosed_short landmarks H).
    reflexivity.
  - intros landmarks now applied g H Hlive.
    unfold BirdGame.live in Hlive. apply andb_true_iff in Hlive.
    destruct Hlive as [Hst Hgo]. apply negb_true_iff in Hgo.
    unfold BirdGame.onResults, bind, getS, lift, modify. simpl.
    rewrite Hst, Hgo. simpl.
    change (handGameUtils.isOnlyOneFingerUp landmarks)
      with (isOnlyOneFingerUp landmarks).
    rewrite (isOnlyOneFingerUp_short landmarks H).
    reflexivity.
Qed.

Lemma classifier_returns_on_full_hand_throws_on_short_witness :
  ((exists b, isOnlyOneFingerUp (twentyPoints ++ [Landmark.mk 0.5 0.6])
              = Normal b)
   /\ (exists b, isHandClosed (twentyPoints ++ [Landmark.mk 0.5 0.6])
                 = Normal b)
   /\ (exists b, handGameUtils.isOnlyOneFingerUp
                   (twentyPoints ++ [Landmark.mk 0.5 0.6]) = Normal b))
  /\ onResults (oneHand []) initial = initial.
Proof.
  split.
  - apply (proj1 classifier_returns_on_full_hand_throws_on_short).
    simpl. lia.
  - apply (proj1 (proj2 (proj2
             classifier_returns_on_full_hand_throws_on_short))).
    simpl. lia.
Defined.

(** C2 as stated fails: the classifiers throw on the empty list and on a
    20-point list, and the bird-hit callback lets the exception out. *)
Lemma classifier_throws_on_malformed_list :
  isOnlyOneFingerUp [] = Throw TypeError
  /\ isHandClosed [] = Throw TypeError
  /\ (length twentyPoints = 20%nat
      /\ handGameUtils.isOnlyOneFingerUp twentyPoints = Throw TypeError)
  /\ fst (BirdGame.onResults 0 BirdGame.BeforeTick (oneHand twentyPoints)
            (BirdGame.startGame (BirdGame.initial 0 (BirdGame.mkDims 640 480))))
     = Throw TypeError.
Proof. repeat split. Qed.

Lemma every_all_true {A : Type} (f : A -> completion bool) (l : list A) :
  Forall (fun a => f a = Normal true) l -> every f l = Normal true.
Proof.
  induction 1 as [ | a l Ha _ IH]; simpl; [reflexivity | ].
  rewrite Ha. exact IH.
Qed.

Lemma fingerDown_folded (landmarks : NormalizedLandmarkList) (tip : nat) :
  foldedBeyond landmarks tip -> fingerDown landmarks tip = Normal true.
Proof.
  intros (pt & pj & Ht & Hj & Hlt). unfold fingerDown, at_y.
  rewrite Ht, Hj. simpl. f_equal. apply Qgtb_gt. exact Hlt.
Qed.

Lemma isHandClosed_folded (landmarks : NormalizedLandmarkList) :
  Forall (foldedBeyond landmarks) fingertipIndices ->
  isHandClosed landmarks = Normal true.
Proof.
  intro H. apply (every_all_true (fingerDown landmarks)).
  apply Forall_impl with (2 := H). apply fingerDown_folded.
Qed.

Lemma isOnlyOneFingerUp_folded (landmarks : NormalizedLandmarkList) :
  Forall (foldedBeyond landmarks) fingertipIndices ->
  isOnlyOneFingerUp landmarks = Normal false.
Proof.
  intro H. pose proof (isHandClosed_folded landmarks H) as Hc.
  assert (Hlen : (20 < length landmarks)%nat).
  { assert (H20 : foldedBeyond landmarks 20).
    { apply (proj1 (Forall_forall _ _) H). simpl. tauto. }
    destruct H20 as (pt & _ & Ht & _).
    apply nth_error_Some. rewrite Ht. discriminate. }
  destruct (isOnlyOneFingerUp_full landmarks Hlen) as [[ | ] Hb].
  - exfalso. exact (closed_excludes_one_finger landmarks Hc Hb).
  - exact Hb.
Qed.

(** C3, as the code has it.  When each fingertip 8, 12, 16, 20 lies below
    its mid-joint 6, 10, 14, 18 by more than 0.03, [isHandClosed] is true,
    [isOnlyOneFingerUp] is false, the frame is classified closed and the
    gesture state becomes ['closed'], the path being left as it is; and on
    no landmark list are [isHandClosed] and [isOnlyOneFingerUp] both
    true. *)
Theorem closed_hand_is_closed_never_one_finger :
  (forall results landmarks s,
     firstHand results = Some landmarks ->
     Forall (foldedBeyond landmarks) fingertipIndices ->
     isHandClosed landmarks = Normal true
     /\ isOnlyOneFingerUp landmarks = Normal false
     /\ handGameUtils.isOnlyOneFingerUp landmarks = Normal false
     /\ classify results = Normal fist
     /\ gesture (onResults results s) = closed
     /\ pathRef (onResults results s) = pathRef s)
  /\ (forall landmarks,
        ~ (isHandClosed landmarks = Normal true
           /\ isOnlyOneFingerUp landmarks = Normal true)).
Proof.
  split.
  - intros results landmarks s Hfirst Hfold.
    pose proof (isHandClosed_folded landmarks Hfold) as Hc.
    pose proof (isOnlyOneFingerUp_folded landmarks Hfold) as Ho.
    assert (Hcl : classify results = Normal fist).
    { unfold classify. rewrite Hfirst, Hc, Ho. reflexivity. }
    repeat split; try assumption.
    + rewrite onResults_classified, Hcl. reflexivity.
    + rewrite onResults_classified, Hcl. reflexivity.
  - intros landmarks [Hc Ho].
    exact (closed_excludes_one_finger landmarks Hc Ho).
Qed.

Lemma closed_hand_is_closed_never_one_finger_witness :
  let fistHand := flatHand [0; 0; 0; 0; 0; 0; 0.5; 0; 0.6; 0; 0.5; 0; 0.6;
                            0; 0.5; 0; 0.6; 0; 0.5; 0; 0.6] in
  Forall (foldedBeyond fistHand) fingertipIndices
  /\ classify (oneHand fistHand) = Normal fist
  /\ gesture (onResults (oneHand fistHand) initial) = closed.
Proof.
  intro fistHand.
  assert (H : Forall (foldedBeyond fistHand) fingertipIndices).
  { repeat constructor;
      (eexists; eexists; split; [reflexivity | split; [reflexivity | ]]);
      simpl; qlra. }
  split; [exact H | ].
  destruct (proj1 closed_hand_is_closed_never_one_finger
              (oneHand fistHand) fistHand initial eq_refl H)
    as (_ & _ & _ & Hcl & Hg & _).
  split; [exact Hcl | exact Hg].
Defined.

(** C3 as stated fails at the margin: with every fingertip exactly 0.03
    below its mid-joint (below by at least 0.03) the hand is not classified
    closed. *)
Lemma hand_at_margin_is_not_closed :
  length marginHand = 21%nat
  /\ Forall (foldedAtLeast marginHand) fingertipIndices
  /\ isHandClosed marginHand = Normal false
  /\ classify (oneHand marginHand) = Normal other
  /\ gesture (onResults (oneHand marginHand) initial) = drawing_.
Proof.
  split; [reflexivity | ]. split; [ | repeat split].
  repeat constructor;
    (eexists; eexists; split; [reflexivity | split; [reflexivity | ]]);
    simpl; qlra.
Qed.

End Classifier.

(** ** The path of the drawing canvas *)

Section DrawingPath.
Import Drawing DrawRun.

Lemma one_finger_has_fingertip (results : Results) :
  oneFingerFrame results = true -> exists p, fingertip results = Some p.
Proof.
  unfold oneFingerFrame, classify, fingertip.
  destruct (firstHand results) as [landmarks | ]; [ | discriminate].
  destruct (isHandClosed landmarks) as [[ | ] | e]; cbn [cbind];
    destruct (isOnlyOneFingerUp landmarks) as [[ | ] | e'] eqn:Ho;
    cbn [cbind]; try discriminate.
  intros _. apply isOnlyOneFingerUp_true in Ho.
  destruct Ho as (y8 & _ & H8 & _). unfold at_y in H8.
  destruct (nth_error landmarks 8) as [tip | ]; [eauto | discriminate].
Qed.

Lemma oneFingerFrame_classify (results : Results) :
  oneFingerFrame results = true -> classify results = Normal one_finger_up.
Proof.
  unfold oneFingerFrame.
  destruct (classify results) as [[ | | | ] | e]; congruence.
Qed.

(** A one-finger-up frame starts a path or extends the one being drawn. *)
Lemma onResults_one_finger (results : Results) (p : Point.t) (s : State) :
  oneFingerFrame results = true -> fingertip results = Some p ->
  onResults results s =
  mkState (if drawing s then pathRef s ++ [p] else [p]) true
          (showClear s) one_finger.
Proof.
  intros Ho Hp. rewrite onResults_classified.
  rewrite (oneFingerFrame_classify results Ho), Hp. reflexivity.
Qed.

Lemma run_cons (e : Event) (es : list Event) (s : State) :
  run (e :: es) s = run es (step s e).
Proof. reflexivity. Qed.

Lemma run_snoc (es : list Event) (e : Event) (s : State) :
  run (es ++ [e]) s = step (run es s) e.
Proof. unfold run. rewrite fold_left_app. reflexivity. Qed.

Lemma fingertips_cons (r : Results) (p : Point.t) (frames : list Results) :
  fingertip r = Some p -> fingertips (r :: frames) = p :: fingertips frames.
Proof. intro H. unfold fingertips. simpl. rewrite H. reflexivity. Qed.

Lemma fingertips_length (frames : list Results) :
  Forall (fun r => oneFingerFrame r = true) frames ->
  length (fingertips frames) = length frames.
Proof.
  induction 1 as [ | r frames Hr _ IH]; [reflexivity | ].
  destruct (one_finger_has_fingertip r Hr) as [p Hp].
  rewrite (fingertips_cons r p frames Hp). simpl. rewrite IH. reflexivity.
Qed.

(** The path after a run of one-finger-up frames, from any state. *)
Lemma run_one_finger_frames (frames : list Results) (s : State) :
  Forall (fun r => oneFingerFrame r = true) frames ->
  pathRef (run (map Frame frames) s) =
  match frames with
  | [] => pathRef s
  | _ :: _ => (if drawing s then pathRef s else []) ++ fingertips frames
  end.
Proof.
  intro H. revert s.
  induction H as [ | r frames Hr Hrest IH]; intro s; [reflexivity | ].
  destruct (one_finger_has_fingertip r Hr) as [p Hp].
  simpl map. rewrite run_cons. simpl step.
  rewrite (onResults_one_finger r p s Hr Hp), IH.
  rewrite (fingertips_cons r p frames Hp).
  destruct frames as [ | r' frames'].
  - simpl. destruct (drawing s); reflexivity.
  - cbn [drawing pathRef]. destruct (drawing s).
    + rewrite <- app_assoc. reflexivity.
    + reflexivity.
Qed.

(** C5.  From an empty path with drawing inactive, [N] consecutive
    one-finger-up frames leave the path holding their [N] fingertip points
    in arrival order, equal points included: a frame that finds drawing
    inactive stores the singleton of its fingertip and turns drawing on, a
    frame that finds it active appends its fingertip. *)
Theorem one_finger_frames_build_path_in_order (frames : list Results)
        (s : State) :
  pathRef s = [] -> drawing s = false ->
  Forall (fun r => oneFingerFrame r = true) frames ->
  pathRef (run (map Frame frames) s) = fingertips frames
  /\ length (pathRef (run (map Frame frames) s)) = length frames
  /\ (forall r p s0, oneFingerFrame r = true -> fingertip r = Some p ->
        drawing s0 = false ->
        pathRef (onResults r s0) = [p] /\ drawing (onResults r s0) = true)
  /\ (forall r p s0, oneFingerFrame r = true -> fingertip r = Some p ->
        drawing s0 = true ->
        pathRef (onResults r s0) = pathRef s0 ++ [p]
        /\ drawing (onResults r s0) = true).
Proof.
  intros Hpath Hdraw Hall.
  assert (Heq : pathRef (run (map Frame frames) s) = fingertips frames).
  { rewrite (run_one_finger_frames frames s Hall), Hpath, Hdraw.
    destruct frames; reflexivity. }
  split; [exact Heq | ]. split.
  - rewrite Heq. apply fingertips_length. exact Hall.
  - split; intros r p s0 Hr Hp Hd;
      rewrite (onResults_one_finger r p s0 Hr Hp), Hd; split; reflexivity.
Qed.

Lemma one_finger_frames_build_path_in_order_witness :
  let f1 := oneHand (pointingHand 0.25 0.25) in
  let f2 := oneHand (pointingHand 0.5 0.25) in
  pathRef (run (map Frame [f1; f1; f2]) initial)
  = [Point.mk (0.25 * 640) (0.25 * 480);
     Point.mk (0.25 * 640) (0.25 * 480);
     Point.mk (0.5 * 640) (0.25 * 480)].
Proof.
  intros f1 f2.
  assert (H : Forall (fun r => oneFingerFrame r = true) [f1; f1; f2])
    by (repeat constructor).
  exact (proj1 (one_finger_frames_build_path_in_order [f1; f1; f2] initial
                  eq_refl eq_refl H)).
Defined.

(** What an event does, by its bearing on strokes. *)
Lemma step_view (s : State) (e : Event) :
  match view e with
  | Stroke p =>
      step s e = mkState (if drawing s then pathRef s ++ [p] else [p]) true
                         (showClear s) one_finger
  | Break => pathRef (step s e) = pathRef s /\ drawing (step s e) = false
  | Ignored =>
      drawing (step s e) = drawing s
      /\ pathRef (step s e) = if isClear e then [] else pathRef s
  end.
Proof.
  destruct e as [results | x y].
  - simpl. rewrite onResults_classified.
    destruct (classify results) as [[ | | | ] | err] eqn:Hc;
      try (split; reflexivity).
    destruct (fingertip results) as [p | ] eqn:Hp; [reflexivity | ].
    exfalso. destruct (one_finger_has_fingertip results) as [p Hp'].
    + unfold oneFingerFrame. rewrite Hc. reflexivity.
    + congruence.
  - simpl. unfold handleCanvasClick.
    destruct (isFingerInButton x y); split; reflexivity.
Qed.

Lemma inStroke_latestRun (vs : list View) :
  inStroke vs = true -> latestRun vs = currentRun vs.
Proof.
  induction vs as [ | [p | | ] vs IH]; simpl; intro H;
    [discriminate | reflexivity | discriminate | exact (IH H)].
Qed.

Lemma not_inStroke_currentRun (vs : list View) :
  inStroke vs = false -> currentRun vs = [].
Proof.
  induction vs as [ | [p | | ] vs IH]; simpl; intro H;
    [reflexivity | discriminate | reflexivity | exact (IH H)].
Qed.

(** The invariant of the drawing canvas over a history from the initial
    state: drawing is active exactly while a stroke is going on, the path is
    a final segment of the most recent stroke, and all of it if no click
    has cleared the path. *)
Lemma run_invariant (es : list Event) :
  let s := run es initial in
  let vs := rev (map view es) in
  drawing s = inStroke vs
  /\ (exists gone, rev (latestRun vs) = gone ++ pathRef s)
  /\ (forallb (fun e => negb (isClear e)) es = true ->
      pathRef s = rev (latestRun vs)).
Proof.
  induction es as [ | e es IH] using rev_ind.
  - simpl. split; [reflexivity | ]. split; [exists []; reflexivity | reflexivity].
  - cbv zeta in *. rewrite run_snoc, map_app, rev_app_distr. simpl rev. simpl app.
    destruct IH as (Hd & [gone Hsuf] & Hall).
    set (s := run es initial) in *. set (vs := rev (map view es)) in *.
    rewrite forallb_app. simpl forallb. rewrite andb_true_r.
    pose proof (step_view s e) as Hstep.
    destruct (view e) as [p | | ].
    + rewrite Hstep. cbn [drawing pathRef inStroke latestRun]. 
      split; [reflexivity | ]. simpl rev.
      destruct (drawing s) eqn:Hds.
      * rewrite <- (inStroke_latestRun vs) by congruence.
        split.
        -- exists gone. rewrite Hsuf, app_assoc. reflexivity.
        -- intro H. apply andb_true_iff in H. destruct H as [H _].
           rewrite (Hall H). reflexivity.
      * rewrite (not_inStroke_currentRun vs) by congruence. simpl.
        split; [exists []; reflexivity | reflexivity].
    + destruct Hstep as [Hp Hdr]. rewrite Hp, Hdr.
      cbn [inStroke latestRun]. split; [reflexivity | ].
      split; [exists gone; exact Hsuf | ].
      intro H. apply andb_true_iff in H. destruct H as [H _]. exact (Hall H).
    + destruct Hstep as [Hdr Hp]. rewrite Hp, Hdr.
      cbn [inStroke latestRun]. split; [exact Hd | ].
      split.
      * destruct (isClear e).
        -- exists (rev (latestRun vs)). rewrite app_nil_r. reflexivity.
        -- exists gone. exact Hsuf.
      * intro H. apply andb_true_iff in H. destruct H as [H He].
        apply negb_true_iff in He. rewrite He. exact (Hall H).
Qed.

(** C10.  A one-finger-up frame that finds drawing inactive replaces the
    path, whatever it held, by the singleton of its fingertip.  Hence, over
    any history of frames and pointer clicks from the initial state, the
    path is a final segment of the most recent stroke, and the whole of it
    when no click has cleared the path: a stroke kept after drawing stopped
    is gone as soon as the next stroke begins. *)
Theorem path_holds_only_the_latest_stroke :
  (forall results p s,
     oneFingerFrame results = true -> fingertip results = Some p ->
     drawing s = false ->
     pathRef (onResults results s) = [p])
  /\ (forall es, exists gone,
        lastStroke es = gone ++ pathRef (run es initial))
  /\ (forall es, forallb (fun e => negb (isClear e)) es = true ->
        pathRef (run es initial) = lastStroke es).
Proof.
  split; [ | split].
  - intros results p s Ho Hp Hd.
    rewrite (onResults_one_finger results p s Ho Hp), Hd. reflexivity.
  - intro es. exact (proj1 (proj2 (run_invariant es))).
  - intros es H. exact (proj2 (proj2 (run_invariant es)) H).
Qed.

Lemma path_holds_only_the_latest_stroke_witness :
  let a := oneHand (pointingHand 0.25 0.25) in
  let b := oneHand (pointingHand 0.5 0.25) in
  let c := oneHand (pointingHand 0.75 0.25) in
  let pause := oneHand (openHand 0.5 0.5) in
  pathRef (run [Frame a; Frame b; Frame pause; Frame noHand; Frame c] initial)
  = [Point.mk (0.75 * 640) (0.25 * 480)]
  /\ pathRef (run [Frame a; Frame b; Frame pause] initial)
     = [Point.mk (0.25 * 640) (0.25 * 480); Point.mk (0.5 * 640) (0.25 * 480)].
Proof.
  intros a b c pause. split.
  - exact (proj2 (proj2 path_holds_only_the_latest_stroke)
             [Frame a; Frame b; Frame pause; Frame noHand; Frame c] eq_refl).
  - exact (proj2 (proj2 path_holds_only_the_latest_stroke)
             [Frame a; Frame b; Frame pause] eq_refl).
Defined.

End DrawingPath.

(** ** The clear action *)

Section ClearAction.

Lemma isFingerInButton_inside (x y : number) :
  isFingerInButton x y = true <->
  534 < x /\ x < 624 /\ 424 < y /\ y < 464.
Proof.
  unfold isFingerInButton. rewrite !andb_true_iff, !Qgtb_gt, !Qltb_lt.
  unfold BUTTON_X, BUTTON_Y, BUTTON_WIDTH, BUTTON_HEIGHT, CANVAS_WIDTH,
    CANVAS_HEIGHT.
  split; intros; repeat split; qlra.
Qed.

(** What a frame with a hand does to the first drawing canvas. *)
Lemma sketch_onResults_hand (results : Results)
      (landmarks : NormalizedLandmarkList) (tip : Landmark.t)
      (s : Sketch.State) :
  firstHand results = Some landmarks -> nth_error landmarks 8 = Some tip ->
  let x := Landmark.x tip * CANVAS_WIDTH in
  let y := Landmark.y tip * CANVAS_HEIGHT in
  Sketch.onResults results s =
  Sketch.mkState
    (if Sketch.drawing s
     then (if isFingerInButton x y then [] else Sketch.pathRef s)
          ++ [Point.mk x y]
     else [Point.mk x y])
    true (isFingerInButton x y).
Proof.
  intros Hfirst Htip x y.
  unfold Sketch.onResults, try_catch, Sketch.onResultsBody.
  rewrite Hfirst. unfold at_x, at_y. rewrite Htip.
  cbv beta iota delta [bind lift modify getS ret snd].
  fold x y. destruct s as [p [ | ] c];
    destruct (isFingerInButton x y); reflexivity.
Qed.

(** C9, as the code has it.  [handleClear] empties the path of either
    drawing canvas, and so does a pointer click inside the clear-button
    rectangle, whatever the path, the gesture and the other state, which
    they leave alone.  The fingertip check of the first drawing canvas
    drops every earlier point as well, but the same frame then records the
    fingertip: the path it leaves is the singleton of that point.  The
    rectangle is 534 < x < 624, 424 < y < 464. *)
Theorem clear_empties_path_finger_clear_leaves_tip :
  (forall s, Drawing.pathRef (Drawing.handleClear s) = []
             /\ Drawing.drawing (Drawing.handleClear s) = Drawing.drawing s
             /\ Drawing.gesture (Drawing.handleClear s) = Drawing.gesture s)
  /\ (forall s, Sketch.pathRef (Sketch.handleClear s) = [])
  /\ (forall x y s, isFingerInButton x y = true ->
        Drawing.pathRef (Drawing.handleCanvasClick x y s) = []
        /\ Drawing.drawing (Drawing.handleCanvasClick x y s)
           = Drawing.drawing s)
  /\ (forall x y s, isFingerInButton x y = true ->
        Sketch.pathRef (Sketch.handleCanvasClick x y s) = [])
  /\ (forall results landmarks tip s,
        firstHand results = Some landmarks ->
        nth_error landmarks 8 = Some tip ->
        isFingerInButton (Landmark.x tip * CANVAS_WIDTH)
                         (Landmark.y tip * CANVAS_HEIGHT) = true ->
        Sketch.pathRef (Sketch.onResults results s)
        = [Point.mk (Landmark.x tip * CANVAS_WIDTH)
                    (Landmark.y tip * CANVAS_HEIGHT)]
        /\ Sketch.showClear (Sketch.onResults results s) = true)
  /\ (forall x y, isFingerInButton x y = true <->
                  534 < x /\ x < 624 /\ 424 < y /\ y < 464).
Proof.
  split; [ | split; [ | split; [ | split; [ | split]]]];
    [ | | | | | exact isFingerInButton_inside].
  - intro s. repeat split.
  - intro s. reflexivity.
  - intros x y s H. unfold Drawing.handleCanvasClick. rewrite H.
    split; reflexivity.
  - intros x y s H. unfold Sketch.handleCanvasClick. rewrite H. reflexivity.
  - intros results landmarks tip s Hfirst Htip Hin.
    rewrite (sketch_onResults_hand results landmarks tip s Hfirst Htip).
    cbv zeta. rewrite Hin. cbn [Sketch.pathRef Sketch.showClear].
    split; [ | reflexivity].
    destruct (Sketch.drawing s); reflexivity.
Qed.

Lemma clear_empties_path_finger_clear_leaves_tip_witness :
  let stroke := [Point.mk 10 10; Point.mk 20 20] in
  Drawing.pathRef
    (Drawing.handleCanvasClick 600 440
       (Drawing.mkState stroke true false Drawing.one_finger)) = []
  /\ Sketch.pathRef
       (Sketch.handleCanvasClick 600 440 (Sketch.mkState stroke true false))
     = [].
Proof.
  intro stroke. split.
  - apply (proj1 (proj2 (proj2 clear_empties_path_finger_clear_leaves_tip))).
    reflexivity.
  - apply (proj1 (proj2 (proj2 (proj2
             clear_empties_path_finger_clear_leaves_tip)))).
    reflexivity.
Defined.

(** C9 as stated fails for the fingertip check: with the fingertip at
    (576, 432), inside the button, a frame turns a path of two points into
    a path of one point, not into the empty path. *)
Lemma finger_clear_leaves_nonempty_path :
  let stroke := [Point.mk 10 10; Point.mk 20 20] in
  let frame := oneHand (openHand 0.9 0.9) in
  isFingerInButton (0.9 * CANVAS_WIDTH) (0.9 * CANVAS_HEIGHT) = true
  /\ Sketch.pathRef (Sketch.onResults frame (Sketch.mkState stroke true false))
     = [Point.mk (0.9 * 640) (0.9 * 480)]
  /\ Sketch.pathRef (Sketch.onResults frame (Sketch.mkState stroke true false))
     <> [].
Proof.
  intros stroke frame. split; [reflexivity | ].
  split; [reflexivity | discriminate].
Qed.

End ClearAction.

(** ** Spawning *)

Section Spawning.
Import handGameUtils BirdGame GameRun.

(** C7, as the code has it.  For all draws in [0, 1), every width and every
    height, the entity returned by [randomBird] starts wholly outside the
    visible area on its side ([x = -28] on the left, [x = width + 28] on the
    right), flies inward at speed 4.5, has a vertical drift within
    [-0.6, 0.6], radius 28 and is not hit.  Its [y] is
    [80 + r_y * (height - 160)]: within [80, height - 80] when the height
    is at least 160, and within [height - 80, 80] when it is at most
    160. *)
Theorem randomBird_spawns_outside_moving_inward (rnd : Draws) (w h : Q) :
  unit_draw (r_side rnd) -> unit_draw (r_y rnd) -> unit_draw (r_vy rnd) ->
  let b := randomBird rnd w h in
  (0.5 < r_side rnd -> x b == -28 /\ vx b == 4.5 /\ outsideLeft b)
  /\ (r_side rnd <= 0.5 ->
      x b == w + 28 /\ vx b == -4.5 /\ outsideRight w b)
  /\ (-0.6 <= vy b /\ vy b <= 0.6)
  /\ y b == 80 + r_y rnd * (h - 160)
  /\ (160 <= h -> 80 <= y b /\ y b <= h - 80)
  /\ (h <= 160 -> h - 80 <= y b /\ y b <= 80)
  /\ radius b == 28
  /\ hit b = false.
Proof.
  intros [Hs0 Hs1] [Hy0 Hy1] [Hv0 Hv1] b.
  unfold b, randomBird, outsideLeft, outsideRight. cbn [x y vx vy radius hit].
  unfold handGameUtils.BIRD_RADIUS, handGameUtils.BIRD_SPEED.
  split; [ | split; [ | split; [ | split; [ | split; [ | split; [ | split]]]]]].
  - intro H. apply Qgtb_gt in H. rewrite H. repeat split; qlra.
  - intro H. apply Qgtb_le in H. rewrite H. repeat split; qlra.
  - split; qlra.
  - reflexivity.
  - intro Hh.
    assert (0 <= r_y rnd * (h - 160)) by (apply Qmult_le_0_compat; qlra).
    assert (0 <= (1 - r_y rnd) * (h - 160))
      by (apply Qmult_le_0_compat; qlra).
    split; qlra.
  - intro Hh.
    assert (0 <= r_y rnd * (160 - h)) by (apply Qmult_le_0_compat; qlra).
    assert (0 <= (1 - r_y rnd) * (160 - h))
      by (apply Qmult_le_0_compat; qlra).
    split; qlra.
  - reflexivity.
  - reflexivity.
Qed.

Lemma randomBird_spawns_outside_moving_inward_witness :
  let b := randomBird (mkDraws 0.75 0.5 0.25) 640 480 in
  let low := randomBird (mkDraws 0.25 0.5 0.25) 640 100 in
  (x b == -28 /\ vx b == 4.5 /\ outsideLeft b)
  /\ (-0.6 <= vy b /\ vy b <= 0.6) /\ (80 <= y b /\ y b <= 480 - 80)
  /\ (x low == 640 + 28 /\ vx low == -4.5 /\ outsideRight 640 low)
  /\ (100 - 80 <= y low /\ y low <= 80).
Proof.
  intros b low.
  assert (Hu : forall r, 0 <= r -> r < 1 -> unit_draw r)
    by (intros r H0 H1; split; assumption).
  destruct (randomBird_spawns_outside_moving_inward
              (mkDraws 0.75 0.5 0.25) 640 480)
    as (Hleft & _ & Hvy & _ & Hy & _).
  - apply Hu; simpl; qlra.
  - apply Hu; simpl; qlra.
  - apply Hu; simpl; qlra.
  - destruct (randomBird_spawns_outside_moving_inward
                (mkDraws 0.25 0.5 0.25) 640 100)
      as (_ & Hright & _ & _ & _ & Hlow & _).
    + apply Hu; simpl; qlra.
    + apply Hu; simpl; qlra.
    + apply Hu; simpl; qlra.
    + split; [apply Hleft; simpl; qlra | ].
      split; [exact Hvy | ].
      split; [apply Hy; qlra | ].
      split; [apply Hright; simpl; qlra | apply Hlow; qlra].
Defined.

(** C7 as stated fails in a low window: for height 100 the entity spawns
    at [y = 50], outside [80, height - 80]. *)
Lemma randomBird_low_window_y_outside_margin :
  let b := randomBird (mkDraws 0.75 0.5 0.25) 640 100 in
  unit_draw 0.75 /\ unit_draw 0.5 /\ unit_draw 0.25
  /\ y b == 50
  /\ ~ (80 <= y b /\ y b <= 100 - 80).
Proof.
  intro b. unfold unit_draw. simpl.
  repeat split; qlra.
Qed.

End Spawning.

(** ** Hit detection *)

Section HitDetection.
Import handGameUtils BirdGame GameRun.

(** The hit condition is: not yet hit, and the Euclidean distance from the
    fingertip to the centre is less than the radius plus 18. *)
Lemma qualifies_euclid (fx fy : Q) (b : Bird) :
  qualifies fx fy b = true <->
  hit b = false
  /\ (euclid fx fy (x b) (y b) < Q2R (radius b) + 18)%R.
Proof.
  unfold qualifies, euclid, dist. rewrite andb_true_iff, negb_true_iff.
  assert (Hsq : (fx - x b) ^ 2 + (fy - y b) ^ 2
                == (fx - x b) * (fx - x b) + (fy - y b) * (fy - y b))
    by (simpl; reflexivity).
  assert (Hnn : 0 <= (fx - x b) ^ 2 + (fy - y b) ^ 2).
  { rewrite Hsq. generalize (fx - x b), (fy - y b). intros a c.
    clear Hsq. Lqa.nra. }
  rewrite (root_ltb_sqrt _ _ Hnn).
  rewrite (Qeq_eqR _ _ Hsq).
  rewrite !Q2R_plus, !Q2R_mult, !Q2R_minus.
  replace (Q2R 18) with 18%R by (unfold Q2R; simpl; rlra).
  replace ((Q2R fx - Q2R (x b)) ^ 2 + (Q2R fy - Q2R (y b)) ^ 2)%R
    with ((Q2R fx - Q2R (x b)) * (Q2R fx - Q2R (x b))
          + (Q2R fy - Q2R (y b)) * (Q2R fy - Q2R (y b)))%R by ring.
  reflexivity.
Qed.

(** The loop over the entities, in closed form. *)
Lemma popOf_seenAt (now : Z) (applied : Applied) (b : Bird) :
  Pop.mk (x (seenAt applied b)) (y (seenAt applied b)) 1 now
  = popOf now applied b.
Proof. destruct applied; reflexivity. Qed.

Lemma hitLoop_closed (fx fy : number) (now : Z) (applied : Applied)
      (todo done : list Bird) (s : State) :
  hitLoop fx fy now applied todo done s =
  mkState (score s + Z.of_nat (length (filter (qualifies fx fy) todo)))
          (timer s) (gameOver s) (started s)
          (pop s ++ map (popOf now applied) (filter (qualifies fx fy) todo))
          (done ++ map (hitOrSame fx fy) todo)
          (lastBirdSpawn s) (lastHandLandmarks s) (canvasDims s).
Proof.
  revert done s. induction todo as [ | bird rest IH]; intros done s.
  - simpl. rewrite Z.add_0_r, !app_nil_r. reflexivity.
  - cbn [hitLoop filter map]. rewrite popOf_seenAt.
    change (negb (hit bird)
            && root_ltb (dist fx fy (x bird) (y bird)) (radius bird + 18))
      with (qualifies fx fy bird).
    replace (hitOrSame fx fy bird)
      with (if qualifies fx fy bird then markHit bird else bird)
      by reflexivity.
    destruct (qualifies fx fy bird); rewrite IH;
      cbn -[Z.of_nat Z.add hitOrSame popOf];
      rewrite <- ?app_assoc; cbn [app]; f_equal.
    rewrite Nat2Z.inj_succ. lia.
Qed.



End HitDetection.

(** ** The game tick *)

Section GameTick.
Import handGameUtils BirdGame GameRun.

Lemma filter_map_moved (d : Dims) (bs : list Bird) :
  filter (inPlay d) (map moveBird bs) = flat_map (keepOne d) bs.
Proof.
  induction bs as [ | b bs IH]; [reflexivity | ].
  simpl. unfold keepOne at 1, tickBird.
  destruct (inPlay d (moveBird b)); simpl; rewrite IH; reflexivity.
Qed.

Lemma gameTick_live (now : Z) (rnd : Draws) (s : State) :
  live s = true ->
  gameTick now rnd s =
  mkState (score s) (timer s) (gameOver s) (started s) (pop s)
          (flat_map (keepOne (canvasDims s)) (birdsRef s)
           ++ spawnedBy now rnd s)
          (if (now - lastBirdSpawn s >? BIRD_SPAWN_INTERVAL)%Z
           then now else lastBirdSpawn s)
          (lastHandLandmarks s) (canvasDims s).
Proof.
  intro Hlive. unfold gameTick, spawnedBy. rewrite Hlive.
  cbn [setBirds birdsRef lastBirdSpawn canvasDims].
  rewrite filter_map_moved.
  destruct (now - lastBirdSpawn s >? BIRD_SPAWN_INTERVAL)%Z.
  - reflexivity.
  - rewrite app_nil_r. destruct s; reflexivity.
Qed.

Lemma inPlay_spec (d : Dims) (b : Bird) :
  inPlay d b = false <-> outOfBounds d b \/ hit b = true.
Proof.
  unfold inPlay, outOfBounds.
  rewrite !andb_false_iff, negb_false_iff, !Qgtb_le, !Qltb_ge. tauto.
Qed.

Lemma tickBird_None (d : Dims) (b : Bird) :
  tickBird d b = None <-> outOfBounds d (moveBird b) \/ hit b = true.
Proof.
  unfold tickBird. change (hit b) with (hit (moveBird b)).
  rewrite <- inPlay_spec.
  destruct (inPlay d (moveBird b)); split; congruence.
Qed.

Lemma tickBird_Some_unhit (d : Dims) (b b' : Bird) :
  tickBird d b = Some b' -> hit b' = false.
Proof.
  unfold tickBird. destruct (inPlay d (moveBird b)) eqn:E; [ | discriminate].
  intro H. injection H as <-.
  unfold inPlay in E. rewrite !andb_true_iff in E.
  destruct E as [_ E]. apply negb_true_iff in E. exact E.
Qed.

Lemma onResults_birds_length (now : Z) (applied : Applied)
      (results : Results) (s : State) :
  length (birdsRef (snd (onResults now applied results s)))
  = length (birdsRef s).
Proof.
  unfold onResults, bind, getS, lift, modify, ret.
  destruct (negb (started s) || gameOver s); [reflexivity | ].
  destruct (firstHand results) as [landmarks | ]; [ | reflexivity].
  destruct (isOnlyOneFingerUp landmarks) as [[ | ] | e]; try reflexivity.
  destruct (at_x landmarks 8) as [tx | e]; [ | reflexivity].
  destruct (at_y landmarks 8) as [ty | e]; [ | reflexivity].
  cbn [snd]. rewrite hitLoop_closed. cbn [birdsRef app].
  apply length_map.
Qed.

(** C4, as the code has it.  A game tick keeps exactly the moved entities
    that lie strictly inside (-28, width + 28) x (-28, height + 28) and are
    not marked hit, and appends at most one spawned entity.  So no entity
    marked hit is in the list after a tick, whatever the age of its
    Score-Pop Effect: the tick neither reads nor changes the pops.  The
    redraw callback and the hit test remove no entity. *)
Theorem tick_keeps_unhit_birds_in_bounds (now : Z) (rnd : Draws) (s : State) :
  live s = true ->
  let d := canvasDims s in
  let s' := gameTick now rnd s in
  birdsRef s' = flat_map (keepOne d) (birdsRef s) ++ spawnedBy now rnd s
  /\ (forall b, keepOne d b = [moveBird b] \/ keepOne d b = [])
  /\ (forall b, keepOne d b = [] <->
                outOfBounds d (moveBird b) \/ hit b = true)
  /\ Forall (fun b => hit b = false) (birdsRef s')
  /\ pop s' = pop s
  /\ (forall now', birdsRef (animate now' s) = birdsRef s)
  /\ (forall now' applied results,
        length (birdsRef (snd (onResults now' applied results s)))
        = length (birdsRef s)).
Proof.
  intros Hlive d s'. unfold s'. rewrite (gameTick_live now rnd s Hlive).
  cbn [birdsRef pop]. fold d.
  split; [reflexivity | ]. split; [ | split; [ | split; [ | split; [ | split]]]].
  - intro b. unfold keepOne, tickBird.
    destruct (inPlay d (moveBird b)); [left | right]; reflexivity.
  - intro b. rewrite <- tickBird_None. unfold keepOne.
    destruct (tickBird d b); split; congruence.
  - apply Forall_app. split.
    + apply Forall_forall. intros b' Hin. apply in_flat_map in Hin.
      destruct Hin as (b & _ & Hb). unfold keepOne in Hb.
      destruct (tickBird d b) as [b1 | ] eqn:E; [ | contradiction].
      destruct Hb as [<- | []]. exact (tickBird_Some_unhit d b b1 E).
    + unfold spawnedBy.
      destruct (now - lastBirdSpawn s >? BIRD_SPAWN_INTERVAL)%Z;
        repeat constructor.
  - reflexivity.
  - intro now'. unfold animate. destruct (live s); reflexivity.
  - intros now' applied results. apply onResults_birds_length.
Qed.

Lemma tick_keeps_unhit_birds_in_bounds_witness :
  let flying := mkBird 100 100 4.5 0 28 false in
  let struck := mkBird 200 100 4.5 0 28 true in
  let leaving := mkBird 665 100 4.5 0 28 false in
  let s := setBirds [flying; struck; leaving]
             (startGame (initial 0 (mkDims 640 480))) in
  birdsRef (gameTick 30 (mkDraws 0.75 0.5 0.25) s)
  = [mkBird (100 + 4.5) (100 + 0) 4.5 0 28 false].
Proof.
  intros flying struck leaving s.
  exact (proj1 (tick_keeps_unhit_birds_in_bounds
                  30 (mkDraws 0.75 0.5 0.25) s eq_refl)).
Defined.

(** C4 as stated fails: an entity hit at clock value 1000 is gone after the
    tick at 1030, while its Score-Pop Effect, 30 ms old, is still there
    after the redraw at 1030. *)
Lemma hit_bird_removed_before_its_pop :
  let bird := mkBird 100 100 4.5 0 28 false in
  let s0 := setBirds [bird] (startGame (initial 0 (mkDims 640 480))) in
  let frame := oneHand (pointingHand (535 / 640) (103 / 480)) in
  let s1 := snd (onResults 1000 BeforeTick frame s0) in
  let s2 := gameTick 1030 (mkDraws 0.75 0.5 0.25) s1 in
  let s3 := animate 1030 s2 in
  birdsRef s1 = [markHit bird]
  /\ pop s1 = [Pop.mk 100 100 1 1000]
  /\ birdsRef s2 = []
  /\ birdsRef s3 = []
  /\ pop s3 = [Pop.mk 100 100 1 1000].
Proof. repeat split. Qed.

End GameTick.

(** ** Every spawned entity leaves the playfield *)

Section Removal.
Import handGameUtils BirdGame GameRun.

Lemma movedBird_vx (n : nat) (b : Bird) : vx (movedBird n b) = vx b.
Proof.
  revert b. induction n as [ | n IH]; intro b; [reflexivity | ].
  simpl. rewrite IH. reflexivity.
Qed.

Lemma movedBird_hit (n : nat) (b : Bird) : hit (movedBird n b) = hit b.
Proof.
  revert b. induction n as [ | n IH]; intro b; [reflexivity | ].
  simpl. rewrite IH. reflexivity.
Qed.

Lemma movedBird_vy (n : nat) (b : Bird) : vy (movedBird n b) = vy b.
Proof.
  revert b. induction n as [ | n IH]; intro b; [reflexivity | ].
  simpl. rewrite IH. reflexivity.
Qed.

(** Each move changes [y] by [vy]. *)
Lemma movedBird_y (n : nat) (b : Bird) :
  y (movedBird n b) == y b + inject_Z (Z.of_nat n) * vy b.
Proof.
  revert b. induction n as [ | n IH]; intro b.
  - simpl. ring.
  - cbn [movedBird]. rewrite IH. cbn [moveBird y vy].
    rewrite Nat2Z.inj_succ. unfold Z.succ. rewrite inject_Z_plus. ring.
Qed.

Lemma movedBird_radius (n : nat) (b : Bird) :
  radius (movedBird n b) = radius b.
Proof.
  revert b. induction n as [ | n IH]; intro b; [reflexivity | ].
  simpl. rewrite IH. reflexivity.
Qed.

(** Each move changes [x] by [vx]. *)
Lemma movedBird_x (n : nat) (b : Bird) :
  x (movedBird n b) == x b + inject_Z (Z.of_nat n) * vx b.
Proof.
  revert b. induction n as [ | n IH]; intro b.
  - simpl. ring.
  - cbn [movedBird]. rewrite IH. cbn [moveBird x vx].
    rewrite Nat2Z.inj_succ. unfold Z.succ. rewrite inject_Z_plus.
    ring.
Qed.

Lemma ticksBird_Some (d : Dims) (n : nat) (b b' : Bird) :
  ticksBird d (S n) b = Some b' ->
  b' = movedBird (S n) b /\ inPlay d b' = true.
Proof.
  revert b. induction n as [ | n IH]; intros b H.
  - simpl in H. unfold tickBird in H.
    destruct (inPlay d (moveBird b)) eqn:E; [ | discriminate].
    injection H as <-. split; [reflexivity | exact E].
  - change (ticksBird d (S (S n)) b)
      with (match tickBird d b with
            | Some b1 => ticksBird d (S n) b1
            | None => None
            end) in H.
    unfold tickBird in H.
    destruct (inPlay d (moveBird b)); [ | discriminate].
    apply IH in H. exact H.
Qed.

Lemma removalBound_reached (w : Q) (n : nat) :
  (removalBound w <= n)%nat ->
  (1 <= n)%nat /\ w + 56 <= 4.5 * inject_Z (Z.of_nat n).
Proof.
  unfold removalBound, BIRD_RADIUS, BIRD_SPEED. intro H.
  set (q := (w + 2 * 28) / 4.5) in *.
  assert (Hz : (Z.max 1 (Qceiling q) <= Z.of_nat n)%Z) by lia.
  split; [lia | ].
  assert (Hq : q <= inject_Z (Z.of_nat n)).
  { apply Qle_trans with (inject_Z (Qceiling q)); [apply Qle_ceiling | ].
    rewrite <- Zle_Qle. lia. }
  assert (Hw : w + 56 == q * 4.5) by (unfold q; field).
  rewrite Hw. qlra.
Qed.

(** A spawned entity is dropped within [removalBound] ticks. *)
Lemma spawned_bird_dropped (d : Dims) (rnd : Draws) (n : nat) :
  (removalBound (width d) <= n)%nat ->
  ticksBird d n (randomBird rnd (width d) (height d)) = None.
Proof.
  intro Hn. apply removalBound_reached in Hn. destruct Hn as [H1 Hreach].
  destruct n as [ | n]; [lia | ].
  set (b := randomBird rnd (width d) (height d)).
  destruct (ticksBird d (S n) b) as [b' | ] eqn:E; [ | reflexivity].
  exfalso. apply ticksBird_Some in E. destruct E as [-> Hin].
  unfold inPlay in Hin. rewrite !andb_true_iff in Hin.
  destruct Hin as [[[[Hx0 Hx1] _] _] _].
  apply Qgtb_gt in Hx0. apply Qltb_lt in Hx1.
  rewrite movedBird_x in Hx0, Hx1.
  unfold b, randomBird in Hx0, Hx1. cbn [x vx] in Hx0, Hx1.
  unfold BIRD_RADIUS, handGameUtils.BIRD_RADIUS, handGameUtils.BIRD_SPEED
    in Hx0, Hx1.
  destruct (Qgtb (r_side rnd) 0.5); qlra.
Qed.

(** A dropped entity was kept up to some tick, the next one dropped it. *)
Lemma first_drop (d : Dims) (n : nat) (b : Bird) :
  ticksBird d n b = None ->
  exists k, (k < n)%nat
            /\ ticksBird d k b = Some (movedBird k b)
            /\ tickBird d (movedBird k b) = None.
Proof.
  revert b. induction n as [ | n IH]; intros b H; [discriminate | ].
  cbn [ticksBird] in H. destruct (tickBird d b) as [b1 | ] eqn:E.
  - assert (Hb1 : b1 = moveBird b).
    { unfold tickBird in E. destruct (inPlay d (moveBird b));
        [congruence | discriminate]. }
    destruct (IH b1 H) as (k & Hk & Hkept & Hdrop).
    exists (S k). split; [lia | ]. cbn [ticksBird movedBird]. rewrite E.
    rewrite <- Hb1. split; assumption.
  - exists 0%nat. split; [lia | ]. split; [reflexivity | exact E].
Qed.

Lemma movedBird_S (k : nat) (b : Bird) :
  movedBird (S k) b = moveBird (movedBird k b).
Proof.
  revert b. induction k as [ | k IH]; intro b; [reflexivity | ].
  change (movedBird (S (S k)) b) with (movedBird (S k) (moveBird b)).
  rewrite IH. reflexivity.
Qed.

Lemma keptBirds_app (d : Dims) (n : nat) (l1 l2 : list Bird) :
  keptBirds d n (l1 ++ l2) = keptBirds d n l1 ++ keptBirds d n l2.
Proof. unfold keptBirds. apply flat_map_app. Qed.

Lemma keptBirds_O (d : Dims) (bs : list Bird) : keptBirds d 0 bs = bs.
Proof.
  induction bs as [ | b bs IH]; [reflexivity | ].
  change (keptBirds d 0 (b :: bs)) with (b :: keptBirds d 0 bs).
  rewrite IH. reflexivity.
Qed.

Lemma keptBirds_S (d : Dims) (n : nat) (bs : list Bird) :
  keptBirds d (S n) bs = keptBirds d n (flat_map (keepOne d) bs).
Proof.
  induction bs as [ | b bs IH]; [reflexivity | ].
  cbn [flat_map]. rewrite keptBirds_app, <- IH.
  unfold keptBirds at 1. cbn [flat_map]. f_equal.
  unfold keepOne. cbn [ticksBird].
  destruct (tickBird d b) as [b1 | ]; [ | reflexivity].
  unfold keptBirds. simpl. rewrite app_nil_r. reflexivity.
Qed.

(** The entities after a run of ticks: what is kept of the entities the run
    started with, then what the run leaves of its own spawns. *)
Lemma gameTicks_birds (inputs : list (Z * Draws)) (s : State) :
  live s = true ->
  birdsRef (gameTicks inputs s)
  = keptBirds (canvasDims s) (length inputs) (birdsRef s)
    ++ birdsRef (gameTicks inputs (setBirds [] s)).
Proof.
  revert s. induction inputs as [ | [now rnd] inputs IH]; intros s Hlive.
  - simpl. rewrite keptBirds_O, app_nil_r. reflexivity.
  - assert (Hlive0 : live (setBirds [] s) = true) by exact Hlive.
    unfold gameTicks in *. cbn [fold_left fst snd length].
    rewrite (gameTick_live now rnd s Hlive).
    rewrite (gameTick_live now rnd (setBirds [] s) Hlive0).
    rewrite IH by exact Hlive.
    rewrite (IH (mkState _ _ _ _ _ _ _ _ _)) by exact Hlive.
    cbn [birdsRef canvasDims setBirds flat_map app score timer gameOver
         started pop lastBirdSpawn lastHandLandmarks].
    rewrite keptBirds_S, keptBirds_app, <- app_assoc.
    reflexivity.
Qed.

(** Outside a live session the 30 ms interval does not run. *)
Lemma gameTicks_not_live (inputs : list (Z * Draws)) (s : State) :
  live s = false -> gameTicks inputs s = s.
Proof.
  intro Hlive. induction inputs as [ | [now rnd] inputs IH]; [reflexivity | ].
  unfold gameTicks in *. cbn [fold_left fst snd].
  unfold gameTick at 2. rewrite Hlive. exact IH.
Qed.

Lemma ticksBird_add (d : Dims) (n m : nat) (b : Bird) :
  ticksBird d (n + m) b
  = match ticksBird d n b with
    | Some b' => ticksBird d m b'
    | None => None
    end.
Proof.
  revert b. induction n as [ | n IH]; intro b; [reflexivity | ].
  cbn [Nat.add ticksBird].
  destruct (tickBird d b) as [b1 | ]; [apply IH | reflexivity].
Qed.

(** An entity kept by [k] ticks is kept by every shorter run. *)
Lemma ticksBird_before (d : Dims) (k n : nat) (b b' : Bird) :
  ticksBird d k b = Some b' -> (n <= k)%nat ->
  ticksBird d n b = Some (movedBird n b).
Proof.
  intros H Hn. replace k with (n + (k - n))%nat in H by lia.
  rewrite ticksBird_add in H.
  destruct (ticksBird d n b) as [b1 | ] eqn:E; [ | discriminate].
  destruct n as [ | n]; [simpl in E; injection E as <-; reflexivity | ].
  apply ticksBird_Some in E. destruct E as [-> _]. reflexivity.
Qed.

(** An entity dropped by its tick [k + 1] is in no longer run. *)
Lemma ticksBird_after (d : Dims) (k n : nat) (b : Bird) :
  ticksBird d k b = Some (movedBird k b) ->
  tickBird d (movedBird k b) = None -> (k < n)%nat ->
  ticksBird d n b = None.
Proof.
  intros Hkept Hdrop Hn. replace n with (k + S (n - k - 1))%nat by lia.
  rewrite ticksBird_add, Hkept. cbn [ticksBird]. rewrite Hdrop.
  reflexivity.
Qed.

(** The entities after a run of ticks of a live session, around one entity
    of the list. *)
Lemma gameTicks_around (inputs : list (Z * Draws)) (s : State)
      (pre post : list Bird) (b : Bird) :
  live s = true -> birdsRef s = pre ++ b :: post ->
  birdsRef (gameTicks inputs s)
  = keptBirds (canvasDims s) (length inputs) pre
    ++ match ticksBird (canvasDims s) (length inputs) b with
       | Some b' => [b']
       | None => []
       end
    ++ keptBirds (canvasDims s) (length inputs) post
    ++ birdsRef (gameTicks inputs (setBirds [] s)).
Proof.
  intros Hlive Hbirds. rewrite (gameTicks_birds inputs s Hlive), Hbirds.
  replace (pre ++ b :: post) with (pre ++ [b] ++ post) by reflexivity.
  rewrite !keptBirds_app, <- !app_assoc. f_equal. f_equal.
  unfold keptBirds at 1. cbn [flat_map]. apply app_nil_r.
Qed.

(** C6, as the code has it.  While the session is live, an entity spawned
    by [randomBird] that is in the list is moved by every tick of the 30 ms
    interval, by 4.5 inward and by its drift: after [n] ticks it is in the
    list at [x = -28 + 4.5 n] (spawned on the left) or
    [x = width + 28 - 4.5 n] (on the right), until the first tick that
    finds it out of bounds; that tick comes within [removalBound width]
    ticks, [(width + 2 * 28) / 4.5] rounded up, and from then on the
    entity is not in the list.  Outside a live session no tick runs: an
    entity that is in the list when the session ends stays there, unmoved,
    until [handleClear] empties the list. *)
Theorem spawned_bird_crosses_and_is_dropped_while_live
        (rnd : Draws) (s : State) (pre post : list Bird) :
  let d := canvasDims s in
  let b := randomBird rnd (width d) (height d) in
  live s = true ->
  birdsRef s = pre ++ b :: post ->
  (exists k0 : nat,
      (k0 < removalBound (width d))%nat
      /\ (forall inputs, (length inputs <= k0)%nat ->
          birdsRef (gameTicks inputs s)
          = keptBirds d (length inputs) pre
            ++ movedBird (length inputs) b
            :: keptBirds d (length inputs) post
            ++ birdsRef (gameTicks inputs (setBirds [] s)))
      /\ outOfBounds d (movedBird (S k0) b)
      /\ (forall inputs, (k0 < length inputs)%nat ->
          birdsRef (gameTicks inputs s)
          = keptBirds d (length inputs) pre
            ++ keptBirds d (length inputs) post
            ++ birdsRef (gameTicks inputs (setBirds [] s))))
  /\ (forall n,
        (0.5 < r_side rnd ->
         x (movedBird n b) == -28 + 4.5 * inject_Z (Z.of_nat n))
        /\ (r_side rnd <= 0.5 ->
            x (movedBird n b) == width d + 28 - 4.5 * inject_Z (Z.of_nat n))
        /\ y (movedBird n b) == y b + inject_Z (Z.of_nat n) * vy b
        /\ vx (movedBird n b) = vx b /\ vy (movedBird n b) = vy b
        /\ radius (movedBird n b) = 28 /\ hit (movedBird n b) = false)
  /\ (0 <= width d ->
      inject_Z (Z.of_nat (removalBound (width d)))
      < (width d + 2 * 28) / 4.5 + 1)
  /\ (forall s0 inputs, live s0 = false -> gameTicks inputs s0 = s0)
  /\ (forall s0, birdsRef (handleClear s0) = []).
Proof.
  intros d b Hlive Hbirds.
  split; [ | split; [ | split; [ | split]]].
  - destruct (first_drop d (removalBound (width d)) b)
      as (k0 & Hk & Hkept & Hdrop).
    { exact (spawned_bird_dropped d rnd _ (Nat.le_refl _)). }
    exists k0. split; [exact Hk | ]. split; [ | split].
    + intros inputs Hn.
      rewrite (gameTicks_around inputs s pre post b Hlive Hbirds). fold d.
      rewrite (ticksBird_before d k0 (length inputs) b _ Hkept Hn).
      reflexivity.
    + apply tickBird_None in Hdrop. rewrite movedBird_S.
      destruct Hdrop as [Hout | Hhit]; [exact Hout | ].
      rewrite movedBird_hit in Hhit. discriminate.
    + intros inputs Hn.
      rewrite (gameTicks_around inputs s pre post b Hlive Hbirds). fold d.
      rewrite (ticksBird_after d k0 (length inputs) b Hkept Hdrop Hn).
      reflexivity.
  - intro n.
    assert (Hx := movedBird_x n b). assert (Hy := movedBird_y n b).
    rewrite movedBird_vx, movedBird_vy, movedBird_hit, movedBird_radius.
    unfold b in Hx |- *. unfold randomBird in Hx |- *.
    cbn [x y vx vy radius hit] in Hx |- *.
    unfold handGameUtils.BIRD_RADIUS, handGameUtils.BIRD_SPEED in Hx |- *.
    split; [ | split; [ | split; [exact Hy | repeat split]]].
    + intro H. apply Qgtb_gt in H. rewrite H in Hx |- *. rewrite Hx. ring.
    + intro H. apply Qgtb_le in H. rewrite H in Hx |- *. rewrite Hx. ring.
  - intro Hw. unfold removalBound, BIRD_RADIUS, BIRD_SPEED.
    set (q := (width d + 2 * 28) / 4.5).
    assert (Hq : 1 <= q).
    { assert (H : width d + 2 * 28 == q * 4.5) by (unfold q; field). qlra. }
    assert (Hc : (1 <= Qceiling q)%Z).
    { change 1%Z with (Qceiling 1). apply Qceiling_resp_le. exact Hq. }
    rewrite Z2Nat.id by lia. rewrite Z.max_r by exact Hc.
    pose proof (Qceiling_lt q) as Hlt.
    unfold Z.sub in Hlt. rewrite inject_Z_plus in Hlt.
    change (inject_Z (- (1))) with (- (1)) in Hlt.
    clearbody q. qlra.
  - intros s0 inputs Hs0. exact (gameTicks_not_live inputs s0 Hs0).
  - intro s0. reflexivity.
Qed.

Lemma spawned_bird_crosses_and_is_dropped_while_live_witness :
  let rnd := mkDraws 0.75 0.5 0.25 in
  let b := randomBird rnd 640 480 in
  let s := setBirds [b] (startGame (initial 0 (mkDims 640 480))) in
  removalBound 640 = 155%nat
  /\ x (movedBird 100 b) == 422
  /\ birdsRef (gameTicks (repeat (0%Z, rnd) 155) s)
     = birdsRef (gameTicks (repeat (0%Z, rnd) 155) (setBirds [] s)).
Proof.
  intros rnd b s.
  split; [reflexivity | ].
  destruct (spawned_bird_crosses_and_is_dropped_while_live
              rnd s [] [] eq_refl eq_refl)
    as ((k0 & Hk & _ & _ & Hgone) & Hmove & _).
  split.
  - destruct (Hmove 100%nat) as (Hx & _).
    refine (Qeq_trans _ _ _ (Hx _) _); reflexivity.
  - apply (Hgone (repeat (0%Z, rnd) 155)).
    rewrite repeat_length. exact Hk.
Defined.

(** C6 as stated fails when the session ends first: an entity spawned in
    the last seconds of a session is neither hit nor out of bounds when the
    timer ends the session, and no later tick moves or removes it.  Here
    the last second of a session on a 640 x 480 canvas, tick by tick: the
    tick at 59040 ms spawns the entity, the 31 ticks up to 59970 ms move
    it to [x = 111.5], the timer ends the session, and the entity is in
    the list ever after. *)
Lemma bird_of_the_last_second_outlives_the_session :
  let rnd := mkDraws 0.75 0.5 0.25 in
  let b := randomBird rnd 640 480 in
  let lastSecond :=
    map (fun i => Session.TickFired (59010 + 30 * Z.of_nat i) rnd)
        (seq 1 32) in
  let history := Session.ClickStart :: repeat Session.TimerFired 59
                 ++ lastSecond ++ [Session.TimerFired] in
  let s0 := Session.run history (initial 0 (mkDims 640 480)) in
  gameOver s0 = true
  /\ birdsRef s0 = [movedBird 31 b]
  /\ x (movedBird 31 b) == 111.5
  /\ hit (movedBird 31 b) = false
  /\ inPlay (mkDims 640 480) (movedBird 32 b) = true
  /\ forall inputs, birdsRef (gameTicks inputs s0) = [movedBird 31 b].
Proof.
  intros rnd b lastSecond history s0.
  assert (Hbirds : birdsRef s0 = [movedBird 31 b])
    by (vm_compute; reflexivity).
  assert (Hlive : live s0 = false) by (vm_compute; reflexivity).
  split; [vm_compute; reflexivity | ].
  split; [exact Hbirds | ].
  split; [vm_compute; reflexivity | ].
  split; [reflexivity | ].
  split; [vm_compute; reflexivity | ].
  intro inputs. rewrite (gameTicks_not_live inputs s0 Hlive). exact Hbirds.
Qed.

End Removal.

(** * Further properties *)

(** ** What the classifiers decide, and what they read *)

Section ClassifierExact.
Import Drawing DrawRun Fingers.

Lemma at_y_inv (landmarks : NormalizedLandmarkList) (i : nat) (v : Q) :
  at_y landmarks i = Normal v ->
  exists p, nth_error landmarks i = Some p /\ Landmark.y p = v.
Proof.
  unfold at_y. destruct (nth_error landmarks i) as [p | ]; [ | discriminate].
  intro H. injection H as H. eauto.
Qed.

Lemma fingerDown_iff (landmarks : NormalizedLandmarkList) (tip : nat) :
  fingerDown landmarks tip = Normal true <-> foldedBeyond landmarks tip.
Proof.
  split; [ | apply fingerDown_folded].
  intro H. apply fingerDown_true in H. destruct H as (yt & yj & Ht & Hj & Hlt).
  apply at_y_inv in Ht, Hj.
  destruct Ht as (pt & Ht & <-). destruct Hj as (pj & Hj & <-).
  exists pt, pj. auto.
Qed.

Lemma every_fingerDown_iff (landmarks : NormalizedLandmarkList)
      (tips : list nat) :
  every (fingerDown landmarks) tips = Normal true
  <-> Forall (foldedBeyond landmarks) tips.
Proof.
  split.
  - induction tips as [ | tip tips IH]; intro H; constructor.
    + apply fingerDown_iff. exact (proj1 (every_cons_true _ _ _ H)).
    + apply IH. exact (proj2 (every_cons_true _ _ _ H)).
  - intro H. apply every_all_true.
    apply Forall_impl with (2 := H). apply fingerDown_folded.
Qed.

(** [isHandClosed] answers true exactly on the landmark lists that have the
    points 6..20 it reads and on which each of the four fingertips 8, 12,
    16, 20 lies more than 0.03 below the point two indices before it. *)
Theorem isHandClosed_true_iff_all_folded (landmarks : NormalizedLandmarkList) :
  isHandClosed landmarks = Normal true
  <-> Forall (foldedBeyond landmarks) fingertipIndices.
Proof.
  change (isHandClosed landmarks)
    with (every (fingerDown landmarks) fingertipIndices).
  split.
  - intro H. apply every_fingerDown_iff. exact H.
  - intro H. apply every_all_true.
    apply Forall_impl with (2 := H). apply fingerDown_folded.
Qed.

(** [isOnlyOneFingerUp] answers true exactly when the index fingertip 8
    lies more than 0.03 above point 6 and each of the fingertips 12, 16, 20
    lies more than 0.03 below the point two indices before it. *)
Theorem isOnlyOneFingerUp_true_iff (landmarks : NormalizedLandmarkList) :
  isOnlyOneFingerUp landmarks = Normal true
  <-> indexRaised landmarks
      /\ Forall (foldedBeyond landmarks) [12; 16; 20]%nat.
Proof.
  rewrite <- every_fingerDown_iff. unfold isOnlyOneFingerUp, indexRaised.
  change (fun tip : nat =>
            (yt <- at_y landmarks tip ;;
             yj <- at_y landmarks (tip - 2) ;;
             Normal (Qgtb yt (yj + 0.03)))%js)
    with (fingerDown landmarks).
  unfold at_y at 1 2.
  destruct (nth_error landmarks 8) as [p8 | ]; cbn [cbind].
  - destruct (nth_error landmarks 6) as [p6 | ]; cbn [cbind].
    + destruct (every (fingerDown landmarks) [12; 16; 20]%nat)
        as [b | e]; cbn [cbind].
      * split.
        -- intro H. injection H as H. apply andb_true_iff in H.
           destruct H as [Hup ->]. apply Qltb_lt in Hup.
           split; [exists p8, p6; auto | reflexivity].
        -- intros [(q8 & q6 & H8 & H6 & Hup) Hb].
           injection H8 as <-. injection H6 as <-. injection Hb as ->.
           apply Qltb_lt in Hup. rewrite Hup. reflexivity.
      * split; [discriminate | intros [_ H]; discriminate].
    + split; [discriminate | ].
      intros [(q8 & q6 & _ & H6 & _) _]. discriminate.
  - split; [discriminate | ].
    intros [(q8 & q6 & H8 & _) _]. discriminate.
Qed.

Lemma at_y_sameY (l1 l2 : NormalizedLandmarkList) (i : nat) :
  sameY l1 l2 i -> at_y l1 i = at_y l2 i.
Proof.
  unfold sameY, at_y.
  destruct (nth_error l1 i), (nth_error l2 i); simpl; congruence.
Qed.

(** The classifiers read nothing but the [y] of the points 6, 8, 10, 12,
    14, 16, 18, 20: two landmark lists that agree there (same [y], or both
    without the point) get the same answer or the same exception, whatever
    their thumbs, their [x] coordinates and their lengths. *)
Theorem classifiers_read_only_eight_heights (l1 l2 : NormalizedLandmarkList) :
  Forall (sameY l1 l2) readIndices ->
  isOnlyOneFingerUp l1 = isOnlyOneFingerUp l2
  /\ isHandClosed l1 = isHandClosed l2
  /\ handGameUtils.isOnlyOneFingerUp l1 = handGameUtils.isOnlyOneFingerUp l2.
Proof.
  intro H.
  assert (Hy : forall i, In i readIndices -> at_y l1 i = at_y l2 i).
  { intros i Hi. apply at_y_sameY. exact (proj1 (Forall_forall _ _) H i Hi). }
  assert (H6 : at_y l1 6 = at_y l2 6) by (apply Hy; simpl; auto 10).
  assert (H8 : at_y l1 8 = at_y l2 8) by (apply Hy; simpl; auto 10).
  assert (H10 : at_y l1 10 = at_y l2 10) by (apply Hy; simpl; auto 10).
  assert (H12 : at_y l1 12 = at_y l2 12) by (apply Hy; simpl; auto 10).
  assert (H14 : at_y l1 14 = at_y l2 14) by (apply Hy; simpl; auto 10).
  assert (H16 : at_y l1 16 = at_y l2 16) by (apply Hy; simpl; auto 10).
  assert (H18 : at_y l1 18 = at_y l2 18) by (apply Hy; simpl; auto 10).
  assert (H20 : at_y l1 20 = at_y l2 20) by (apply Hy; simpl; auto 10).
  unfold handGameUtils.isOnlyOneFingerUp, isOnlyOneFingerUp, isHandClosed.
  cbn [every Nat.sub].
  rewrite H6, H8, H10, H12, H14, H16, H18, H20.
  repeat split.
Qed.

Lemma classifiers_read_only_eight_heights_witness :
  isOnlyOneFingerUp (pointingHand 0.25 0.25)
  = isOnlyOneFingerUp
      (map (fun p => Landmark.mk (1 - Landmark.x p) (Landmark.y p))
           (pointingHand 0.25 0.25) ++ [Landmark.mk 0 0]).
Proof.
  apply (classifiers_read_only_eight_heights
           (pointingHand 0.25 0.25)
           (map (fun p => Landmark.mk (1 - Landmark.x p) (Landmark.y p))
                (pointingHand 0.25 0.25) ++ [Landmark.mk 0 0])).
  repeat constructor.
Defined.

(** [isOnlyOneFingerUp] tests the three other fingers even when the index
    finger is not up, so it throws on every list without point 12;
    [every] stops at the first finger that is not folded, so a list that
    ends after that finger gets the answer false: from [isHandClosed] when
    the index finger is not folded, from [isOnlyOneFingerUp] when the
    middle finger is not folded. *)
Theorem classifiers_stop_at_first_unfolded_finger :
  (forall landmarks, (length landmarks <= 12)%nat ->
     isOnlyOneFingerUp landmarks = Throw TypeError)
  /\ (forall landmarks p8 p6,
        nth_error landmarks 8 = Some p8 -> nth_error landmarks 6 = Some p6 ->
        Landmark.y p8 <= Landmark.y p6 + 0.03 ->
        isHandClosed landmarks = Normal false)
  /\ (forall landmarks p8 p6 p12 p10,
        nth_error landmarks 8 = Some p8 -> nth_error landmarks 6 = Some p6 ->
        nth_error landmarks 12 = Some p12 ->
        nth_error landmarks 10 = Some p10 ->
        Landmark.y p12 <= Landmark.y p10 + 0.03 ->
        isOnlyOneFingerUp landmarks = Normal false).
Proof.
  split; [ | split].
  - intros landmarks Hlen. unfold isOnlyOneFingerUp.
    destruct (at_y landmarks 8) as [y8 | e]; [ | destruct e; reflexivity].
    destruct (at_y landmarks 6) as [y6 | e]; [ | destruct e; reflexivity].
    cbn [cbind every]. rewrite (at_y_short landmarks 12 Hlen). reflexivity.
  - intros landmarks p8 p6 H8 H6 Hle. unfold isHandClosed, at_y. cbn [every].
    cbn [Nat.sub]. rewrite H8, H6. cbn [cbind Landmark.y].
    apply Qgtb_le in Hle. rewrite Hle. reflexivity.
  - intros landmarks p8 p6 p12 p10 H8 H6 H12 H10 Hle.
    unfold isOnlyOneFingerUp, at_y. cbn [every Nat.sub].
    rewrite H8, H6, H12, H10. cbn [cbind Landmark.y].
    apply Qgtb_le in Hle. rewrite Hle. cbn [cbind].
    rewrite andb_false_r. reflexivity.
Qed.

Lemma classifiers_stop_at_first_unfolded_finger_witness :
  let thirteen := firstn 13 (openHand 0.5 0.5) in
  isOnlyOneFingerUp (firstn 12 (openHand 0.5 0.5)) = Throw TypeError
  /\ isHandClosed (firstn 9 (openHand 0.5 0.5)) = Normal false
  /\ isOnlyOneFingerUp thirteen = Normal false.
Proof.
  intro thirteen.
  destruct classifiers_stop_at_first_unfolded_finger as (Ha & Hb & Hc).
  split; [apply Ha; simpl; lia | ].
  split.
  - apply (Hb _ (Landmark.mk 0.5 0.5) (Landmark.mk 0.5 0.5));
      [reflexivity | reflexivity | simpl; qlra].
  - apply (Hc thirteen (Landmark.mk 0.5 0.5) (Landmark.mk 0.5 0.5)
              (Landmark.mk 0.5 0.1) (Landmark.mk 0.5 0.5));
      [reflexivity | reflexivity | reflexivity | reflexivity | simpl; qlra].
Defined.

End ClassifierExact.

(** ** Frames that do not draw, and the painting of the path *)

Section DrawingIdle.
Import Drawing DrawRun Painting.
Import String.

(** A frame that is not one-finger-up never touches the path of the
    gesture canvas.  If it has a Gesture it turns drawing off, so that the
    next stroke starts a new path; without a hand it also resets the
    [showClear] and [gesture] states; closed and other hands set the
    gesture state to ['closed'] and ['drawing']; a frame whose landmark
    reads throw changes nothing at all. *)
Theorem frame_without_one_finger_keeps_path (results : Results) (s : State) :
  oneFingerFrame results = false ->
  pathRef (onResults results s) = pathRef s
  /\ (forall g, classify results = Normal g ->
        drawing (onResults results s) = false)
  /\ (firstHand results = None ->
      onResults results s = mkState (pathRef s) false false drawing_)
  /\ (classify results = Normal fist -> gesture (onResults results s) = closed)
  /\ (classify results = Normal other ->
      gesture (onResults results s) = drawing_)
  /\ (forall e, classify results = Throw e -> onResults results s = s).
Proof.
  intro Hno. rewrite onResults_classified.
  unfold oneFingerFrame in Hno.
  assert (Hnone : firstHand results = None -> classify results = Normal no_hand).
  { intro H. unfold classify. rewrite H. reflexivity. }
  destruct (classify results) as [[ | | | ] | err] eqn:Hc; try discriminate;
    repeat split; intros; try reflexivity; try discriminate;
    match goal with
    | H : firstHand _ = None |- _ => apply Hnone in H; discriminate
    end.
Qed.

Lemma frame_without_one_finger_keeps_path_witness :
  let stroke := [Point.mk 10 10; Point.mk 20 20] in
  let s := mkState stroke true false one_finger in
  pathRef (onResults noHand s) = stroke
  /\ pathRef (onResults (oneHand (openHand 0.5 0.5)) s) = stroke
  /\ pathRef (onResults (oneHand []) s) = stroke.
Proof.
  intros stroke s.
  split; [ | split].
  - exact (proj1 (frame_without_one_finger_keeps_path noHand s eq_refl)).
  - exact (proj1 (frame_without_one_finger_keeps_path
                    (oneHand (openHand 0.5 0.5)) s eq_refl)).
  - exact (proj1 (frame_without_one_finger_keeps_path
                    (oneHand []) s eq_refl)).
Defined.

Lemma skipn_nth_error {A : Type} (l : list A) (i : nat) (a : A) :
  nth_error l i = Some a -> skipn i l = a :: skipn (S i) l.
Proof.
  revert i. induction l as [ | b l IH]; intros [ | i] H; try discriminate.
  - injection H as ->. reflexivity.
  - simpl in H. apply IH in H. exact H.
Qed.

(** The loop of [drawPath] reads inside the array only and emits one
    [lineTo] for each point from index [i] on. *)
Lemma lineToLoop_skipn (path : list Point.t) (n i : nat) :
  (i + n = List.length path)%nat ->
  lineToLoop path i n = Normal (map lineToPoint (skipn i path)).
Proof.
  revert i. induction n as [ | n IH]; intros i H.
  - simpl. rewrite skipn_all2 by lia. reflexivity.
  - cbn [lineToLoop].
    destruct (nth_error path i) as [p | ] eqn:E.
    + rewrite IH by lia. cbn [cbind].
      rewrite (skipn_nth_error path i p E). reflexivity.
    + apply nth_error_None in E. lia.
Qed.

(** [drawPath] never throws.  It paints nothing for a path of fewer than
    two points; otherwise it begins one path at the first point, draws a
    line to each further point in order (one segment less than there are
    points), and strokes it once, 4 wide in '#2196f3'. *)
Theorem drawPath_strokes_polyline_or_nothing (path : list Point.t) :
  drawPath path
  = Normal
      match path with
      | p0 :: p1 :: rest =>
          [beginPath; moveTo (Point.x p0) (Point.y p0)]
          ++ map lineToPoint (p1 :: rest)
          ++ [setStrokeStyle "#2196f3"; setLineWidth 4; stroke]
      | _ => []
      end.
Proof.
  destruct path as [ | p0 [ | p1 rest]]; try reflexivity.
  unfold drawPath.
  replace (1 <? List.length (p0 :: p1 :: rest))%nat with true by reflexivity.
  cbn [nth_error].
  rewrite lineToLoop_skipn by (simpl; lia).
  reflexivity.
Qed.

End DrawingIdle.

(** ** The first drawing canvas *)

Section SketchPath.
Import Sketch SketchRun Painting.
Import String.

Lemma sketch_onResults_tip (results : Results) (p : Point.t) (s : State) :
  DrawRun.fingertip results = Some p ->
  onResults results s =
  mkState
    (if drawing s
     then (if isFingerInButton (Point.x p) (Point.y p) then [] else pathRef s)
          ++ [p]
     else [p])
    true (isFingerInButton (Point.x p) (Point.y p)).
Proof.
  unfold DrawRun.fingertip.
  destruct (firstHand results) as [landmarks | ] eqn:Hf; [ | discriminate].
  destruct (nth_error landmarks 8) as [tip | ] eqn:Ht; [ | discriminate].
  intro H. injection H as <-.
  exact (sketch_onResults_hand results landmarks tip s Hf Ht).
Qed.

Lemma sketch_onResults_no_hand (results : Results) (s : State) :
  firstHand results = None ->
  onResults results s = mkState (pathRef s) false false.
Proof.
  intro H. unfold onResults, try_catch, onResultsBody. rewrite H.
  reflexivity.
Qed.

Lemma sketch_run_cons (r : Results) (frames : list Results) (s : State) :
  run (r :: frames) s = run frames (onResults r s).
Proof. reflexivity. Qed.

Lemma sketch_run_off_button (frames : list Results) (s : State) :
  Forall (fun r => tipOffButton r = true) frames ->
  pathRef (run frames s) =
  match frames with
  | [] => pathRef s
  | _ :: _ => (if drawing s then pathRef s else [])
              ++ DrawRun.fingertips frames
  end.
Proof.
  intro H. revert s.
  induction H as [ | r frames Hr _ IH]; intro s; [reflexivity | ].
  unfold tipOffButton in Hr.
  destruct (DrawRun.fingertip r) as [p | ] eqn:Hp; [ | discriminate].
  apply negb_true_iff in Hr.
  rewrite sketch_run_cons, IH, (sketch_onResults_tip r p s Hp), Hr.
  rewrite (fingertips_cons r p frames Hp).
  cbn [drawing pathRef].
  destruct frames as [ | r' frames'].
  - simpl. destruct (drawing s); reflexivity.
  - destruct (drawing s).
    + rewrite <- app_assoc. reflexivity.
    + reflexivity.
Qed.

(** On the first drawing canvas, frames with the fingertip off the clear
    button extend the path by their fingertips, in order, as long as the
    hand stays in view.  One frame without a hand keeps the path on screen
    but ends it: the next frame with a hand starts a new path, and what was
    drawn before is gone. *)
Theorem sketch_path_grows_until_hand_is_lost (frames : list Results)
        (lost : Results) (s : State) :
  Forall (fun r => tipOffButton r = true) frames ->
  firstHand lost = None ->
  (drawing s = true ->
   pathRef (run frames s) = pathRef s ++ DrawRun.fingertips frames)
  /\ pathRef (onResults lost s) = pathRef s
  /\ (frames <> [] ->
      pathRef (run (lost :: frames) s) = DrawRun.fingertips frames).
Proof.
  intros Hoff Hlost. split; [ | split].
  - intro Hd. rewrite (sketch_run_off_button frames s Hoff), Hd.
    destruct frames; [rewrite app_nil_r | ]; reflexivity.
  - rewrite (sketch_onResults_no_hand lost s Hlost). reflexivity.
  - intro Hne. rewrite sketch_run_cons, (sketch_run_off_button _ _ Hoff).
    rewrite (sketch_onResults_no_hand lost s Hlost).
    destruct frames; [congruence | reflexivity].
Qed.

Lemma sketch_path_grows_until_hand_is_lost_witness :
  let a := oneHand (openHand 0.25 0.25) in
  let b := oneHand (openHand 0.5 0.25) in
  pathRef (run [a; b; noHand; b; a] initial)
  = [Point.mk (0.5 * 640) (0.25 * 480); Point.mk (0.25 * 640) (0.25 * 480)].
Proof.
  intros a b.
  assert (Hoff : Forall (fun r => tipOffButton r = true) [b; a])
    by (repeat constructor).
  refine (proj2 (proj2 (sketch_path_grows_until_hand_is_lost
                          [b; a] noHand (run [a; b] initial)
                          Hoff eq_refl)) _).
  discriminate.
Defined.

(** While the fingertip is inside the clear button, every frame leaves a
    path of one point, the fingertip, so [drawPath] paints nothing: the
    canvas shows no stroke.  The first frame with the fingertip off the
    button then adds its point, and [drawPath] paints one segment, from the
    last point inside the button. *)
Theorem sketch_button_frame_paints_nothing (inside outside : Results)
        (p q : Point.t) (s : State) :
  DrawRun.fingertip inside = Some p -> tipInButton inside = true ->
  DrawRun.fingertip outside = Some q -> tipOffButton outside = true ->
  pathRef (onResults inside s) = [p]
  /\ showClear (onResults inside s) = true
  /\ drawPath (pathRef (onResults inside s)) = Normal []
  /\ pathRef (onResults outside (onResults inside s)) = [p; q]
  /\ drawPath (pathRef (onResults outside (onResults inside s)))
     = Normal [beginPath; moveTo (Point.x p) (Point.y p);
               lineTo (Point.x q) (Point.y q);
               setStrokeStyle "#2196f3"; setLineWidth 4; stroke].
Proof.
  intros Hp Hin Hq Hoff.
  unfold tipInButton in Hin. rewrite Hp in Hin.
  unfold tipOffButton in Hoff. rewrite Hq in Hoff.
  apply negb_true_iff in Hoff.
  rewrite (sketch_onResults_tip outside q _ Hq), Hoff.
  rewrite (sketch_onResults_tip inside p s Hp), Hin.
  cbn [pathRef showClear drawing].
  assert (Hpath : (if drawing s then [] ++ [p] else [p]) = [p])
    by (destruct (drawing s); reflexivity).
  rewrite Hpath. repeat split.
Qed.

Lemma sketch_button_frame_paints_nothing_witness :
  let inside := oneHand (openHand 0.9 0.9) in
  let s := mkState [Point.mk 10 10; Point.mk 20 20] true false in
  drawPath (pathRef (onResults inside s)) = Normal [].
Proof.
  intros inside s.
  exact (proj1 (proj2 (proj2
           (sketch_button_frame_paints_nothing
              inside (oneHand (openHand 0.5 0.5))
              (Point.mk (0.9 * CANVAS_WIDTH) (0.9 * CANVAS_HEIGHT))
              (Point.mk (0.5 * CANVAS_WIDTH) (0.5 * CANVAS_HEIGHT))
              s eq_refl eq_refl eq_refl eq_refl)))).
Defined.

End SketchPath.

(** ** The hit test on any frame *)

Section HitTestAnyFrame.
Import handGameUtils BirdGame GameRun Session.

(** The state that [onResults] leaves, whether it returns or throws. *)
Lemma onResults_state (now : Z) (applied : Applied) (results : Results)
      (s : State) :
  snd (onResults now applied results s) =
  if negb (started s) || gameOver s then s
  else
    match firstHand results with
    | None => setLastHandLandmarks None s
    | Some landmarks =>
        match isOnlyOneFingerUp landmarks, nth_error landmarks 8 with
        | Normal true, Some tip =>
            hitLoop (fingerX (canvasDims s) tip) (fingerY (canvasDims s) tip)
                    now applied (birdsRef s) []
                    (setLastHandLandmarks (Some landmarks) s)
        | _, _ => setLastHandLandmarks (Some landmarks) s
        end
    end.
Proof.
  unfold onResults, bind, getS, lift, modify, ret.
  destruct (negb (started s) || gameOver s); [reflexivity | ].
  destruct (firstHand results) as [landmarks | ]; [ | reflexivity].
  destruct (isOnlyOneFingerUp landmarks) as [[ | ] | e]; try reflexivity;
    unfold at_x, at_y;
    destruct (nth_error landmarks 8) as [tip | ]; reflexivity.
Qed.

Lemma qualifies_hitOrSame (fx fy : Q) (b : Bird) :
  qualifies fx fy (hitOrSame fx fy b) = false.
Proof.
  unfold hitOrSame. destruct (qualifies fx fy b) eqn:E; [ | exact E].
  reflexivity.
Qed.

Lemma filter_qualifies_marked (fx fy : Q) (bs : list Bird) :
  filter (qualifies fx fy) (map (hitOrSame fx fy) bs) = [].
Proof.
  induction bs as [ | b bs IH]; [reflexivity | ].
  simpl. rewrite qualifies_hitOrSame. exact IH.
Qed.

Lemma hitOrSame_twice (fx fy : Q) (b : Bird) :
  hitOrSame fx fy (hitOrSame fx fy b) = hitOrSame fx fy b.
Proof.
  unfold hitOrSame at 1. rewrite qualifies_hitOrSame. reflexivity.
Qed.

(** Evaluating the same frame again scores nothing: whatever the frame and
    the state, a second [onResults] on it leaves entities, score and pops
    as the first left them.  An entity is scored once. *)
Theorem same_frame_again_scores_nothing (now now' : Z)
        (applied applied' : Applied) (results : Results) (s : State) :
  let s1 := snd (onResults now applied results s) in
  let s2 := snd (onResults now' applied' results s1) in
  birdsRef s2 = birdsRef s1 /\ score s2 = score s1 /\ pop s2 = pop s1.
Proof.
  cbv zeta. rewrite (onResults_state now' applied' results).
  rewrite (onResults_state now applied results s).
  destruct (negb (started s) || gameOver s) eqn:Hgate.
  - rewrite Hgate. auto.
  - destruct (firstHand results) as [landmarks | ].
    + destruct (isOnlyOneFingerUp landmarks) as [[ | ] | e];
        try (cbn [started gameOver setLastHandLandmarks]; rewrite Hgate;
             auto).
      destruct (nth_error landmarks 8) as [tip | ];
        [ | cbn [started gameOver setLastHandLandmarks]; rewrite Hgate; auto].
      rewrite hitLoop_closed.
      cbn [started gameOver canvasDims birdsRef setLastHandLandmarks app].
      rewrite Hgate, hitLoop_closed.
      cbn [score pop birdsRef setLastHandLandmarks app].
      rewrite filter_qualifies_marked, map_map.
      cbn [length map]. rewrite Z.add_0_r, app_nil_r.
      split; [ | auto].
      apply map_ext. intro b. apply hitOrSame_twice.
    + cbn [started gameOver setLastHandLandmarks]. rewrite Hgate. auto.
Qed.

Lemma sameButHit_refl (b : Bird) : sameButHit b b.
Proof. unfold sameButHit. tauto. Qed.

Lemma sameButHit_hitOrSame (fx fy : Q) (b : Bird) :
  sameButHit b (hitOrSame fx fy b).
Proof.
  unfold hitOrSame. destruct (qualifies fx fy b); [ | apply sameButHit_refl].
  unfold sameButHit, markHit. simpl. tauto.
Qed.

Lemma newlyHit_same (bs : list Bird) : newlyHit bs bs = 0%nat.
Proof.
  unfold newlyHit. induction bs as [ | b bs IH]; [reflexivity | ].
  simpl. destruct (hit b); simpl; exact IH.
Qed.

Lemma newly_hit_one (fx fy : Q) (b : Bird) :
  negb (hit b) && hit (hitOrSame fx fy b) = qualifies fx fy b.
Proof.
  unfold hitOrSame, qualifies. destruct (hit b) eqn:Hh; cbn [negb andb].
  - reflexivity.
  - destruct (root_ltb (dist fx fy (x b) (y b)) (radius b + 18));
      [reflexivity | exact Hh].
Qed.

Lemma newlyHit_marked (fx fy : Q) (bs : list Bird) :
  newlyHit bs (map (hitOrSame fx fy) bs)
  = length (filter (qualifies fx fy) bs).
Proof.
  unfold newlyHit. induction bs as [ | b bs IH]; [reflexivity | ].
  cbn [map combine filter fst snd]. rewrite newly_hit_one.
  destruct (qualifies fx fy b); cbn [length]; rewrite IH; reflexivity.
Qed.

Lemma Forall2_same {A : Type} (R : A -> A -> Prop) (l : list A) :
  (forall a, R a a) -> Forall2 R l l.
Proof. intro H. induction l; constructor; auto. Qed.

Lemma Forall2_map_r {A : Type} (R : A -> A -> Prop) (f : A -> A)
      (l : list A) :
  (forall a, R a (f a)) -> Forall2 R l (map f l).
Proof. intro H. induction l; simpl; constructor; auto. Qed.

(** Whatever the frame, [onResults] keeps the entities in place: the same
    entities in the same order with the same position, velocity and radius,
    none un-hit; it leaves timer, session flags, spawn clock and dimensions
    alone; it only appends pops, and the score rises by the number of pops
    appended, which is the number of entities newly hit. *)
Theorem hit_test_only_marks_and_scores (now : Z) (applied : Applied)
        (results : Results) (s : State) :
  let s' := snd (onResults now applied results s) in
  Forall2 sameButHit (birdsRef s) (birdsRef s')
  /\ timer s' = timer s /\ gameOver s' = gameOver s /\ started s' = started s
  /\ lastBirdSpawn s' = lastBirdSpawn s /\ canvasDims s' = canvasDims s
  /\ exists added,
       pop s' = pop s ++ added
       /\ score s' = (score s + Z.of_nat (length added))%Z
       /\ length added = newlyHit (birdsRef s) (birdsRef s').
Proof.
  cbv zeta. rewrite onResults_state.
  assert (Hsame : forall s0 : State,
             birdsRef s0 = birdsRef s -> pop s0 = pop s ->
             score s0 = score s ->
             Forall2 sameButHit (birdsRef s) (birdsRef s0)
             /\ exists added,
                  pop s0 = pop s ++ added
                  /\ score s0 = (score s + Z.of_nat (length added))%Z
                  /\ length added = newlyHit (birdsRef s) (birdsRef s0)).
  { intros s0 Hb Hp Hs. rewrite Hb, Hp, Hs. split.
    - apply Forall2_same, sameButHit_refl.
    - exists []. rewrite app_nil_r, newlyHit_same. simpl.
      repeat split; lia. }
  destruct (negb (started s) || gameOver s).
  { destruct (Hsame s eq_refl eq_refl eq_refl) as [H1 H2]. tauto. }
  destruct (firstHand results) as [landmarks | ].
  2:{ destruct (Hsame (setLastHandLandmarks None s) eq_refl eq_refl eq_refl)
        as [H1 H2]. cbn [setLastHandLandmarks timer gameOver started
                          lastBirdSpawn canvasDims] in *. tauto. }
  assert (Hidle :
            let s0 := setLastHandLandmarks (Some landmarks) s in
            Forall2 sameButHit (birdsRef s) (birdsRef s0)
            /\ timer s0 = timer s /\ gameOver s0 = gameOver s
            /\ started s0 = started s
            /\ lastBirdSpawn s0 = lastBirdSpawn s
            /\ canvasDims s0 = canvasDims s
            /\ exists added,
                 pop s0 = pop s ++ added
                 /\ score s0 = (score s + Z.of_nat (length added))%Z
                 /\ length added = newlyHit (birdsRef s) (birdsRef s0)).
  { destruct (Hsame (setLastHandLandmarks (Some landmarks) s)
                    eq_refl eq_refl eq_refl) as [H1 H2].
    cbv zeta. cbn [setLastHandLandmarks timer gameOver started
                   lastBirdSpawn canvasDims] in *. tauto. }
  destruct (isOnlyOneFingerUp landmarks) as [[ | ] | e]; try exact Hidle.
  destruct (nth_error landmarks 8) as [tip | ]; [ | exact Hidle].
  rewrite hitLoop_closed.
  cbn [birdsRef timer gameOver started lastBirdSpawn canvasDims pop score
       setLastHandLandmarks app].
  split; [apply Forall2_map_r, sameButHit_hitOrSame | ].
  repeat (split; [reflexivity | ]).
  eexists. split; [reflexivity | ].
  rewrite length_map, newlyHit_marked. split; reflexivity.
Qed.

End HitTestAnyFrame.

(** ** Invariants of the bird-hit component *)

Section SessionInvariants.
Import handGameUtils BirdGame GameRun Session.

Lemma session_run_snoc (es : list Event) (e : Event) (s : State) :
  run (es ++ [e]) s = step (run es s) e.
Proof. unfold run. rewrite fold_left_app. reflexivity. Qed.

(** What [onResults] leaves of the session bookkeeping. *)
Lemma onResults_bookkeeping (now : Z) (applied : Applied)
      (results : Results) (s : State) :
  let s' := snd (onResults now applied results s) in
  timer s' = timer s /\ gameOver s' = gameOver s /\ started s' = started s
  /\ (score s <= score s')%Z
  /\ (started s = false -> s' = s)
  /\ exists f, birdsRef s' = map f (birdsRef s)
               /\ forall b, f b = b \/ f b = markHit b.
Proof.
  cbv zeta. rewrite onResults_state.
  assert (Hsame : forall s0 : State,
             timer s0 = timer s -> gameOver s0 = gameOver s ->
             started s0 = started s -> score s0 = score s ->
             birdsRef s0 = birdsRef s -> (started s = false -> s0 = s) ->
             timer s0 = timer s /\ gameOver s0 = gameOver s
             /\ started s0 = started s
             /\ (score s <= score s0)%Z
             /\ (started s = false -> s0 = s)
             /\ exists f, birdsRef s0 = map f (birdsRef s)
                          /\ forall b, f b = b \/ f b = markHit b).
  { intros s0 Ht Hgo Hst Hsc Hb Hoff.
    split; [exact Ht | ]. split; [exact Hgo | ]. split; [exact Hst | ].
    split; [lia | ]. split; [exact Hoff | ].
    exists (fun b => b). rewrite map_id. split; [exact Hb | auto]. }
  destruct (started s) eqn:Hst; cbn [negb orb];
    [ | apply Hsame; auto].
  destruct (gameOver s) eqn:Hgo; [apply Hsame; auto; discriminate | ].
  destruct (firstHand results) as [landmarks | ];
    [ | apply Hsame; auto; discriminate].
  destruct (isOnlyOneFingerUp landmarks) as [[ | ] | e];
    try (apply Hsame; auto; discriminate).
  destruct (nth_error landmarks 8) as [tip | ];
    [ | apply Hsame; auto; discriminate].
  rewrite hitLoop_closed.
  cbn [timer gameOver started score birdsRef setLastHandLandmarks app].
  split; [reflexivity | ]. split; [exact Hgo | ]. split; [exact Hst | ].
  split; [lia | ]. split; [discriminate | ].
  eexists. split; [reflexivity | ].
  intro b. unfold hitOrSame.
  destruct (qualifies _ _ b); [right | left]; reflexivity.
Qed.

Lemma step_keeps_sessionInvariant (s : State) (e : Event) :
  sessionInvariant s -> sessionInvariant (step s e).
Proof.
  unfold sessionInvariant, GAME_DURATION.
  intros (Hsc & Hover & Hrun & Hidle).
  destruct e as [ | | | now rnd | now | now applied results | d]; cbn [step].
  - destruct (started s) eqn:Hst; cbn [negb]; [rewrite ?Hst; tauto | ].
    unfold startGame, handleClear, GAME_DURATION. simpl.
    intuition (try discriminate; lia).
  - destruct (gameOver s && started s); [ | tauto].
    unfold playAgain, handleClear, GAME_DURATION. simpl.
    intuition (try discriminate; lia).
  - unfold timerTick, live.
    destruct (started s) eqn:Hst; cbn [andb]; [ | rewrite Hst; tauto].
    destruct (gameOver s) eqn:Hgo; cbn [negb]; [rewrite Hst, Hgo; tauto | ].
    destruct (Z.leb_spec (timer s) 1); simpl; rewrite ?Hst, ?Hgo;
      intuition (try discriminate; try lia).
  - destruct (live s) eqn:Hlive.
    + rewrite (gameTick_live now rnd s Hlive). simpl.
      unfold live in Hlive. apply andb_true_iff in Hlive.
      destruct Hlive as [Hst _]. rewrite Hst.
      intuition (try discriminate; try lia).
    + unfold gameTick. rewrite Hlive. tauto.
  - unfold animate. destruct (live s); simpl; tauto.
  - destruct (onResults_bookkeeping now applied results s)
      as (Ht & Hgo & Hst & Hle & Hoff & _).
    rewrite Ht, Hgo, Hst.
    split; [lia | ]. split; [exact Hover | ]. split; [exact Hrun | ].
    intro H. rewrite (Hoff H). exact (Hidle H).
  - simpl. tauto.
Qed.

(** In every state the component can reach from its first render, by any
    events in any order: the score is not negative; game-over holds only in
    a started session and then no time is left; a session that is not over
    has 1 to 60 seconds left; and while no session is started there is no
    entity, the score is 0 and the timer shows 60. *)
Theorem reachable_states_keep_session_invariant (es : list Event) (now : Z)
        (d : Dims) :
  sessionInvariant (run es (initial now d)).
Proof.
  induction es as [ | e es IH] using rev_ind.
  - unfold sessionInvariant, initial, GAME_DURATION. simpl.
    repeat split; try lia; discriminate.
  - rewrite session_run_snoc. apply step_keeps_sessionInvariant. exact IH.
Qed.

Lemma spawnShaped_moveBird (b : Bird) : spawnShaped b -> spawnShaped (moveBird b).
Proof. exact (fun H => H). Qed.

Lemma spawnShaped_markHit (b : Bird) : spawnShaped b -> spawnShaped (markHit b).
Proof. exact (fun H => H). Qed.

Lemma spawnShaped_randomBird (rnd : Draws) (w h : Q) :
  spawnShaped (randomBird rnd w h).
Proof.
  unfold spawnShaped, randomBird. simpl. split; [reflexivity | ].
  destruct (Qgtb (r_side rnd) 0.5); [left | right]; reflexivity.
Qed.

Lemma step_keeps_spawnShaped (s : State) (e : Event) :
  Forall spawnShaped (birdsRef s) -> Forall spawnShaped (birdsRef (step s e)).
Proof.
  intro H. destruct e as [ | | | now rnd | now | now applied results | d].
  - cbn [step]. destruct (negb (started s)); [constructor | exact H].
  - cbn [step]. destruct (gameOver s && started s); [constructor | exact H].
  - cbn [step]. unfold timerTick.
    destruct (live s); [ | exact H].
    destruct (timer s <=? 1)%Z; exact H.
  - cbn [step]. destruct (live s) eqn:Hlive.
    + rewrite (gameTick_live now rnd s Hlive). cbn [birdsRef].
      apply Forall_app. split.
      * apply Forall_forall. intros b' Hin. apply in_flat_map in Hin.
        destruct Hin as (b & Hb & Hb'). unfold keepOne, tickBird in Hb'.
        destruct (inPlay (canvasDims s) (moveBird b)); [ | contradiction].
        destruct Hb' as [<- | []]. apply spawnShaped_moveBird.
        exact (proj1 (Forall_forall _ _) H b Hb).
      * unfold spawnedBy.
        destruct (now - lastBirdSpawn s >? BIRD_SPAWN_INTERVAL)%Z;
          [ | constructor].
        constructor; [apply spawnShaped_randomBird | constructor].
    + unfold gameTick. rewrite Hlive. exact H.
  - cbn [step]. unfold animate. destruct (live s); exact H.
  - cbn [step].
    destruct (onResults_bookkeeping now applied results s)
      as (_ & _ & _ & _ & _ & f & Hf & Hcases).
    rewrite Hf. apply Forall_forall. intros b' Hin. apply in_map_iff in Hin.
    destruct Hin as (b & <- & Hb).
    pose proof (proj1 (Forall_forall _ _) H b Hb) as Hshape.
    destruct (Hcases b) as [-> | ->];
      [exact Hshape | apply spawnShaped_markHit; exact Hshape].
  - exact H.
Qed.

(** Every entity in the list of a reachable state has radius 28 and
    horizontal velocity 4.5 or -4.5: entities come from [randomBird] only,
    and neither moving nor hitting changes these.  The constant 28 in the
    tick's bounds test is therefore each entity's own radius. *)
Theorem reachable_birds_keep_radius_and_speed (es : list Event) (now : Z)
        (d : Dims) :
  Forall (fun b => radius b = 28 /\ (vx b = 4.5 \/ vx b = - 4.5))
         (birdsRef (run es (initial now d))).
Proof.
  change (Forall spawnShaped (birdsRef (run es (initial now d)))).
  induction es as [ | e es IH] using rev_ind.
  - constructor.
  - rewrite session_run_snoc. apply step_keeps_spawnShaped. exact IH.
Qed.

(** Outside a live session, that is before "Start Game" and after the game
    is over, no timer tick, game tick, redraw or model result changes the
    state at all: score, time, entities and pops stay frozen until a button
    is clicked. *)
Theorem drivers_do_nothing_outside_a_live_session (es : list Event)
        (s : State) :
  live s = false ->
  Forall (fun e => isDriver e = true) es ->
  run es s = s.
Proof.
  intros Hlive Hes. induction Hes as [ | e es He _ IH]; [reflexivity | ].
  change (run (e :: es) s) with (run es (step s e)).
  assert (Hstep : step s e = s).
  { destruct e as [ | | | now rnd | now | now applied results | d];
      try discriminate; cbn [step].
    - unfold timerTick. rewrite Hlive. reflexivity.
    - unfold gameTick. rewrite Hlive. reflexivity.
    - unfold animate. rewrite Hlive. reflexivity.
    - rewrite onResults_state.
      unfold live in Hlive.
      destruct (started s), (gameOver s); try discriminate; reflexivity. }
  rewrite Hstep. exact IH.
Qed.

Lemma drivers_do_nothing_outside_a_live_session_witness :
  let over := setTimer (fun _ => 0%Z)
                (setGameOver true
                   (setBirds [mkBird 100 100 4.5 0 28 false]
                      (startGame (initial 0 (mkDims 640 480))))) in
  run [TimerFired; TickFired 5000 (mkDraws 0.75 0.5 0.25); RedrawFired 5000;
       ResultsArrived 5000 AfterTick
         (oneHand (pointingHand (535 / 640) (103 / 480)))]
      over = over.
Proof.
  intro over.
  apply drivers_do_nothing_outside_a_live_session;
    [reflexivity | repeat constructor].
Defined.

End SessionInvariants.

(** ** Pops, spawns and the countdown *)

Section PopsAndSpawns.
Import handGameUtils BirdGame GameRun.

Lemma filter_filter_weaker {A : Type} (f g : A -> bool) (l : list A) :
  (forall a, g a = true -> f a = true) ->
  filter g (filter f l) = filter g l.
Proof.
  intro H. induction l as [ | a l IH]; [reflexivity | ].
  simpl. destruct (f a) eqn:Ef; simpl.
  - rewrite IH. reflexivity.
  - destruct (g a) eqn:Eg; [ | exact IH].
    apply H in Eg. congruence.
Qed.

(** In a live session a redraw keeps, in their order, exactly the pops
    less than 700 ms old and changes nothing else; redrawing at a later
    clock value makes an earlier redraw redundant.  A pop created at [t]
    is thus shown by the redraws before [t + 700] and dropped by the first
    one at or after it. *)
Theorem redraw_prunes_pops_by_age (now later : Z) (s : State) :
  live s = true -> (now <= later)%Z ->
  pop (animate now s)
  = filter (fun p => (now - Pop.time p <? 700)%Z) (pop s)
  /\ (forall p, In p (pop (animate now s)) <->
                In p (pop s) /\ (now < Pop.time p + 700)%Z)
  /\ animate later (animate now s) = animate later s
  /\ birdsRef (animate now s) = birdsRef s
  /\ score (animate now s) = score s.
Proof.
  intros Hlive Hle.
  assert (Hnow : animate now s
                 = setPop (filter (fun p => (now - Pop.time p <? 700)%Z)) s).
  { unfold animate. rewrite Hlive. reflexivity. }
  rewrite Hnow. cbn [pop setPop birdsRef score].
  split; [reflexivity | ]. split; [ | split; [ | split; reflexivity]].
  - intro p. rewrite filter_In, Z.ltb_lt. split; intros [H1 H2]; split;
      try assumption; lia.
  - assert (Hlive' : live (setPop (filter (fun p =>
                                   (now - Pop.time p <? 700)%Z)) s) = true)
      by exact Hlive.
    unfold animate. rewrite Hlive', Hlive. unfold setPop.
    cbn [pop score timer gameOver started birdsRef lastBirdSpawn
         lastHandLandmarks canvasDims].
    f_equal. apply filter_filter_weaker.
    intros p H. apply Z.ltb_lt in H. apply Z.ltb_lt. lia.
Qed.

Lemma redraw_prunes_pops_by_age_witness :
  let s := setPop (fun _ => [Pop.mk 100 100 1 1000; Pop.mk 50 60 1 1500])
             (startGame (initial 0 (mkDims 640 480))) in
  pop (animate 1699 s) = [Pop.mk 100 100 1 1000; Pop.mk 50 60 1 1500]
  /\ pop (animate 1700 s) = [Pop.mk 50 60 1 1500].
Proof.
  intro s. split.
  - exact (proj1 (redraw_prunes_pops_by_age 1699 1699 s eq_refl
                    (Z.le_refl _))).
  - exact (proj1 (redraw_prunes_pops_by_age 1700 1700 s eq_refl
                    (Z.le_refl _))).
Defined.

(** A run of ticks none of which comes more than 1200 ms after the last
    spawn only moves and drops entities. *)
Lemma gameTicks_no_spawn (inputs : list (Z * Draws)) (s : State) :
  live s = true ->
  Forall (fun i => (fst i - lastBirdSpawn s <= 1200)%Z) inputs ->
  gameTicks inputs s
  = setBirds (keptBirds (canvasDims s) (length inputs) (birdsRef s)) s.
Proof.
  revert s. induction inputs as [ | [now rnd] inputs IH]; intros s Hlive Hall.
  - cbn [length]. rewrite keptBirds_O. destruct s; reflexivity.
  - inversion Hall as [ | i l Hnow Hrest]; subst. cbn [fst] in Hnow.
    unfold gameTicks in *. cbn [fold_left fst snd length].
    rewrite (gameTick_live now rnd s Hlive). unfold spawnedBy.
    unfold BIRD_SPAWN_INTERVAL.
    destruct (Z.gtb_spec (now - lastBirdSpawn s) 1200) as [Hgt | _];
      [lia | ].
    rewrite app_nil_r. rewrite IH; [ | exact Hlive | exact Hrest].
    cbn [birdsRef canvasDims]. rewrite keptBirds_S. reflexivity.
Qed.

(** A tick of a live session moves the entities and keeps those in play;
    it spawns nothing unless more than 1200 ms have passed since the last
    spawn (or since the component was mounted), and then appends exactly
    [randomBird(width, height)] to the list and restarts that clock, so
    that the ticks of the following 1200 ms spawn nothing: the spawns of a
    session are more than 1200 ms apart, one entity each. *)
Theorem spawns_are_more_than_1200_ms_apart (now next : Z) (rnd rnd' : Draws)
        (s : State) (inputs : list (Z * Draws)) :
  live s = true ->
  let d := canvasDims s in
  let s1 := gameTick now rnd s in
  ((now - lastBirdSpawn s <= 1200)%Z ->
   birdsRef s1 = filter (inPlay d) (map moveBird (birdsRef s))
   /\ lastBirdSpawn s1 = lastBirdSpawn s)
  /\ ((1200 < now - lastBirdSpawn s)%Z ->
      birdsRef s1
      = filter (inPlay d) (map moveBird (birdsRef s))
        ++ [randomBird rnd (width d) (height d)]
      /\ lastBirdSpawn s1 = now
      /\ ((next <= now + 1200)%Z ->
          birdsRef (gameTick next rnd' s1)
          = filter (inPlay d) (map moveBird (birdsRef s1))
          /\ lastBirdSpawn (gameTick next rnd' s1) = now)
      /\ (Forall (fun i => (fst i <= now + 1200)%Z) inputs ->
          birdsRef (gameTicks inputs s1)
          = keptBirds d (length inputs) (birdsRef s1)
          /\ lastBirdSpawn (gameTicks inputs s1) = now))
  /\ (length (birdsRef s1) <= length (birdsRef s) + 1)%nat
  /\ live s1 = true
  /\ canvasDims s1 = d.
Proof.
  intros Hlive d s1.
  assert (Hs1 : s1 = mkState (score s) (timer s) (gameOver s) (started s)
                       (pop s)
                       (filter (inPlay d) (map moveBird (birdsRef s))
                        ++ spawnedBy now rnd s)
                       (if (now - lastBirdSpawn s >? 1200)%Z
                        then now else lastBirdSpawn s)
                       (lastHandLandmarks s) d).
  { unfold s1. rewrite (gameTick_live now rnd s Hlive), filter_map_moved.
    reflexivity. }
  assert (Hlive1 : live s1 = true) by (rewrite Hs1; exact Hlive).
  assert (Hd1 : canvasDims s1 = d) by (rewrite Hs1; reflexivity).
  assert (Hkeep : (length (filter (inPlay d) (map moveBird (birdsRef s)))
                   <= length (birdsRef s))%nat).
  { rewrite <- (length_map moveBird (birdsRef s)). apply filter_length_le. }
  assert (Hbirds1 : birdsRef s1
                    = filter (inPlay d) (map moveBird (birdsRef s))
                      ++ spawnedBy now rnd s)
    by (rewrite Hs1; reflexivity).
  assert (Hclock1 : lastBirdSpawn s1
                    = if (now - lastBirdSpawn s >? 1200)%Z
                      then now else lastBirdSpawn s)
    by (rewrite Hs1; reflexivity).
  clearbody s1. clear Hs1.
  unfold spawnedBy, BIRD_SPAWN_INTERVAL in Hbirds1. fold d in Hbirds1.
  destruct (Z.gtb_spec (now - lastBirdSpawn s) 1200) as [Hgt | Hle].
  - split; [intro; lia | ]. split.
    + intros _. split; [exact Hbirds1 | ]. split; [exact Hclock1 | ].
      split.
      * intro Hnext.
        rewrite (gameTick_live next rnd' s1 Hlive1), filter_map_moved.
        cbn [birdsRef lastBirdSpawn]. unfold spawnedBy, BIRD_SPAWN_INTERVAL.
        rewrite Hclock1, Hd1.
        destruct (Z.gtb_spec (next - now) 1200); [lia | ].
        rewrite app_nil_r. split; reflexivity.
      * intro Hall. rewrite (gameTicks_no_spawn inputs s1 Hlive1).
        -- cbn [birdsRef lastBirdSpawn setBirds]. rewrite Hd1.
           split; [reflexivity | exact Hclock1].
        -- rewrite Hclock1. apply Forall_impl with (2 := Hall).
           intros i Hi. lia.
    + split; [ | split; [exact Hlive1 | exact Hd1]].
      rewrite Hbirds1, length_app. simpl. lia.
  - split.
    + intros _. rewrite Hbirds1, app_nil_r.
      split; [reflexivity | exact Hclock1].
    + split; [intro; lia | ].
      split; [ | split; [exact Hlive1 | exact Hd1]].
      rewrite Hbirds1, app_nil_r. lia.
Qed.

Lemma spawns_are_more_than_1200_ms_apart_witness :
  let s := startGame (initial 0 (mkDims 640 480)) in
  let rnd := mkDraws 0.75 0.5 0.25 in
  let b := randomBird rnd 640 480 in
  birdsRef (gameTick 1230 rnd s) = [b]
  /\ birdsRef (gameTick 2430 rnd (gameTick 1230 rnd s)) = [moveBird b]
  /\ birdsRef (gameTick 2431 rnd (gameTick 1230 rnd s))
     = [moveBird b; b].
Proof.
  intros s rnd b.
  destruct (spawns_are_more_than_1200_ms_apart
              1230 2430 rnd rnd s [] eq_refl)
    as (_ & Hspawn & _).
  destruct Hspawn as (Hfirst & _ & Hnext & _); [reflexivity | ].
  destruct (spawns_are_more_than_1200_ms_apart
              2431 0 rnd rnd (gameTick 1230 rnd s) [] eq_refl)
    as (_ & Hspawn' & _).
  destruct Hspawn' as (Hsecond & _); [reflexivity | ].
  split; [exact Hfirst | ].
  split; [ | exact Hsecond].
  exact (proj1 (Hnext ltac:(reflexivity))).
Defined.

(** From any number [t >= 1] of seconds left, a live session is over after
    exactly [t] timer ticks and not before; a tick that finds one second or
    less, even none or a negative number, ends it at once with 0 seconds.
    The timer touches neither the entities nor the pops. *)
Theorem countdown_ends_after_the_seconds_left (n : nat) (s : State) :
  live s = true ->
  (timer s = Z.of_nat (S n) ->
   gameOver (timerTicks (S n) s) = true
   /\ timer (timerTicks (S n) s) = 0%Z
   /\ forall k, (k <= n)%nat ->
        live (timerTicks k s) = true
        /\ timer (timerTicks k s) = (timer s - Z.of_nat k)%Z)
  /\ ((timer s <= 1)%Z ->
      gameOver (timerTick s) = true /\ timer (timerTick s) = 0%Z)
  /\ birdsRef (timerTick s) = birdsRef s
  /\ pop (timerTick s) = pop s.
Proof.
  intro Hlive. split; [ | split; [ | split]].
  - intro Ht. destruct (timerTicks_finish n s Hlive Ht) as [H0 Hover].
    split; [exact Hover | ]. split; [exact H0 | ].
    intros k Hk. apply timerTicks_countdown; [exact Hlive | lia].
  - intro Hle. unfold timerTick. rewrite Hlive.
    destruct (Z.leb_spec (timer s) 1); [split; reflexivity | lia].
  - unfold timerTick. destruct (live s); [ | reflexivity].
    destruct (timer s <=? 1)%Z; reflexivity.
  - unfold timerTick. destruct (live s); [ | reflexivity].
    destruct (timer s <=? 1)%Z; reflexivity.
Qed.

Lemma countdown_ends_after_the_seconds_left_witness :
  let s := setTimer (fun _ => 3%Z) (startGame (initial 0 (mkDims 640 480))) in
  gameOver (timerTicks 3 s) = true /\ timer (timerTicks 3 s) = 0%Z.
Proof.
  intro s.
  destruct (countdown_ends_after_the_seconds_left 2 s eq_refl)
    as (H & _).
  destruct (H eq_refl) as (Hover & H0 & _).
  split; [exact Hover | exact H0].
Defined.

End PopsAndSpawns.

(** ** How long a spawned entity stays, and where a fingertip hits *)

Section Lifetime.
Import handGameUtils BirdGame GameRun.

(** An entity that is in play after each of its first [k] moves is kept by
    [k] ticks. *)
Lemma ticksBird_kept (d : Dims) (k : nat) (b : Bird) :
  (forall j, (1 <= j <= k)%nat -> inPlay d (movedBird j b) = true) ->
  ticksBird d k b = Some (movedBird k b).
Proof.
  revert b. induction k as [ | k IH]; intros b H; [reflexivity | ].
  cbn [ticksBird movedBird]. unfold tickBird.
  assert (H1 : inPlay d (moveBird b) = true) by (apply (H 1%nat); lia).
  rewrite H1. apply IH. intros j Hj.
  apply (H (S j)). lia.
Qed.

(** An entity spawned in a window at least 160 high is in play after each
    of its first 179 moves that come before it has crossed the playfield
    ([4.5 k < width + 56]). *)
Lemma spawned_bird_in_play (rnd : Draws) (d : Dims) (k j : nat) :
  unit_draw (r_y rnd) -> unit_draw (r_vy rnd) -> 160 <= height d ->
  (k <= 179)%nat -> 4.5 * inject_Z (Z.of_nat k) < width d + 56 ->
  (1 <= j <= k)%nat ->
  inPlay d (movedBird j (randomBird rnd (width d) (height d))) = true.
Proof.
  intros [Hy0 Hy1] [Hv0 Hv1] Hh Hk Hcross [Hj1 Hjk].
  unfold inPlay. rewrite movedBird_hit.
  rewrite !andb_true_iff, !Qgtb_gt, !Qltb_lt.
  rewrite movedBird_x, movedBird_y.
  assert (HJ1 : 1 <= inject_Z (Z.of_nat j))
    by (change 1 with (inject_Z 1); rewrite <- Zle_Qle; lia).
  assert (HJk : inject_Z (Z.of_nat j) <= inject_Z (Z.of_nat k))
    by (rewrite <- Zle_Qle; lia).
  assert (HK : inject_Z (Z.of_nat k) <= 179)
    by (change 179 with (inject_Z 179); rewrite <- Zle_Qle; lia).
  unfold randomBird. cbn [x y vx vy hit].
  unfold BIRD_RADIUS, handGameUtils.BIRD_RADIUS, handGameUtils.BIRD_SPEED.
  set (J := inject_Z (Z.of_nat j)) in *.
  set (K := inject_Z (Z.of_nat k)) in *.
  assert (Hspan : 0 <= r_y rnd * (height d - 160))
    by (apply Qmult_le_0_compat; qlra).
  assert (Hspan' : 0 <= (1 - r_y rnd) * (height d - 160))
    by (apply Qmult_le_0_compat; qlra).
  assert (Hup : 0 <= J * ((r_vy rnd - 0.5) * 1.2 + 0.6))
    by (apply Qmult_le_0_compat; qlra).
  assert (Hdown : 0 <= J * (0.6 - (r_vy rnd - 0.5) * 1.2))
    by (apply Qmult_le_0_compat; qlra).
  clearbody J K.
  destruct (Qgtb (r_side rnd) 0.5); repeat split; qlra.
Qed.

(** An entity spawned in a window at least 160 high is not dropped early
    by the ticks of a live session: after a run of [k] ticks, [k] at most
    179 and before the entity has crossed the playfield
    ([4.5 k < width + 56]), the entity is in the list, in its place, at
    the position its velocity gives, [k] moves from where the run found it.
    In a window at most 749 wide that is its whole crossing; in a wider
    one its vertical drift can take it out first. *)
Theorem spawned_bird_stays_in_play (rnd : Draws) (s : State)
        (pre post : list Bird) (inputs : list (Z * Draws)) :
  let d := canvasDims s in
  let k := length inputs in
  let b := randomBird rnd (width d) (height d) in
  unit_draw (r_y rnd) -> unit_draw (r_vy rnd) -> 160 <= height d ->
  (k <= 179)%nat -> 4.5 * inject_Z (Z.of_nat k) < width d + 56 ->
  live s = true -> birdsRef s = pre ++ b :: post ->
  birdsRef (gameTicks inputs s)
  = keptBirds d k pre
    ++ movedBird k b
    :: keptBirds d k post ++ birdsRef (gameTicks inputs (setBirds [] s))
  /\ In (movedBird k b) (birdsRef (gameTicks inputs s))
  /\ x (movedBird k b) == x b + inject_Z (Z.of_nat k) * vx b
  /\ y (movedBird k b) == y b + inject_Z (Z.of_nat k) * vy b
  /\ ticksBird d k b = Some (movedBird k b).
Proof.
  intros d k b Hy Hvy Hh Hk Hcross Hlive Hbirds.
  assert (Hkept : ticksBird d k b = Some (movedBird k b)).
  { apply ticksBird_kept. intros j Hj.
    exact (spawned_bird_in_play rnd d k j Hy Hvy Hh Hk Hcross Hj). }
  assert (Hlist : birdsRef (gameTicks inputs s)
                  = keptBirds d k pre
                    ++ movedBird k b
                    :: keptBirds d k post
                    ++ birdsRef (gameTicks inputs (setBirds [] s))).
  { rewrite (gameTicks_around inputs s pre post b Hlive Hbirds).
    fold d. fold k. rewrite Hkept. reflexivity. }
  split; [exact Hlist | ].
  split; [rewrite Hlist; apply in_or_app; right; left; reflexivity | ].
  split; [apply movedBird_x | ]. split; [apply movedBird_y | exact Hkept].
Qed.

Lemma spawned_bird_stays_in_play_witness :
  let rnd := mkDraws 0.75 0 0 in
  let b := randomBird rnd 640 480 in
  let s := setBirds [b] (startGame (initial 0 (mkDims 640 480))) in
  let inputs := repeat (0%Z, rnd) 154 in
  birdsRef (gameTicks inputs s) = [movedBird 154 b]
  /\ x (movedBird 154 b) == 665.
Proof.
  intros rnd b s inputs.
  assert (Hu : unit_draw 0) by (split; qlra).
  destruct (spawned_bird_stays_in_play rnd s [] [] inputs Hu Hu)
    as (Hlist & _ & Hx & _).
  - simpl. qlra.
  - apply Nat.leb_le. reflexivity.
  - reflexivity.
  - reflexivity.
  - reflexivity.
  - split.
    + rewrite Hlist. reflexivity.
    + refine (Qeq_trans _ _ _ Hx _). reflexivity.
Defined.

(** In a window 1920 wide an entity spawned at the top of the margin with
    the strongest upward drift is dropped by its 180th tick, at x = 782,
    long before it has crossed. *)
Lemma wide_window_bird_leaves_through_the_top :
  let d := mkDims 1920 1080 in
  let b := randomBird (mkDraws 0.75 0 0) 1920 1080 in
  ticksBird d 179 b = Some (movedBird 179 b)
  /\ ticksBird d 180 b = None
  /\ x (movedBird 180 b) == 782 /\ y (movedBird 180 b) == -28.
Proof.
  intros d b. split; [ | split; [ | split]]; vm_compute; reflexivity.
Qed.

(** The hit region of an entity is the open disc of radius [radius + 18]:
    a fingertip that hits is less than [radius + 18] away in each
    coordinate, and one that is at most [0.7 * (radius + 18)] away in both
    coordinates hits an entity that is not yet hit.  For the radius 28 of
    every entity: 46 or more away in one coordinate never hits, within 32
    in both always does. *)
Theorem hit_region_between_two_squares (fx fy : Q) (b : Bird) :
  let c := radius b + 18 in
  (qualifies fx fy b = true ->
   hit b = false
   /\ - c < fx - x b /\ fx - x b < c
   /\ - c < fy - y b /\ fy - y b < c)
  /\ (hit b = false -> 0 < c ->
      - (0.7 * c) <= fx - x b -> fx - x b <= 0.7 * c ->
      - (0.7 * c) <= fy - y b -> fy - y b <= 0.7 * c ->
      qualifies fx fy b = true).
Proof.
  intro c. unfold qualifies, root_ltb, dist.
  assert (Hsq : (fx - x b) ^ 2 + (fy - y b) ^ 2
                == (fx - x b) * (fx - x b) + (fy - y b) * (fy - y b))
    by (simpl; reflexivity).
  rewrite !andb_true_iff, negb_true_iff, !Qltb_lt, Hsq. clear Hsq.
  fold c. clearbody c.
  set (dx := fx - x b). set (dy := fy - y b). clearbody dx dy.
  split.
  - intros (Hh & Hc & Hin). split; [exact Hh | ].
    pose proof (Qmult_le_0_compat dx dx) as Hxx.
    pose proof (Qmult_le_0_compat dy dy) as Hyy.
    assert (Hx2 : 0 <= dx * dx) by Lqa.nra.
    assert (Hy2 : 0 <= dy * dy) by Lqa.nra.
    clear Hxx Hyy.
    repeat split.
    + destruct (Qlt_le_dec (- c) dx) as [H | H]; [exact H | exfalso].
      assert (0 <= (- c - dx) * (c - dx))
        by (apply Qmult_le_0_compat; qlra).
      qlra.
    + destruct (Qlt_le_dec dx c) as [H | H]; [exact H | exfalso].
      assert (0 <= (dx - c) * (dx + c)) by (apply Qmult_le_0_compat; qlra).
      qlra.
    + destruct (Qlt_le_dec (- c) dy) as [H | H]; [exact H | exfalso].
      assert (0 <= (- c - dy) * (c - dy))
        by (apply Qmult_le_0_compat; qlra).
      qlra.
    + destruct (Qlt_le_dec dy c) as [H | H]; [exact H | exfalso].
      assert (0 <= (dy - c) * (dy + c)) by (apply Qmult_le_0_compat; qlra).
      qlra.
  - intros Hh Hc Hx0 Hx1 Hy0 Hy1.
    split; [exact Hh | ]. split; [exact Hc | ].
    assert (0 <= (0.7 * c - dx) * (0.7 * c + dx))
      by (apply Qmult_le_0_compat; qlra).
    assert (0 <= (0.7 * c - dy) * (0.7 * c + dy))
      by (apply Qmult_le_0_compat; qlra).
    assert (0 < c * c) by (apply Qmult_lt_0_compat; exact Hc).
    qlra.
Qed.

Lemma hit_region_between_two_squares_witness :
  qualifies 132 68 (mkBird 100 100 4.5 0 28 false) = true.
Proof.
  apply (proj2 (hit_region_between_two_squares
                  132 68 (mkBird 100 100 4.5 0 28 false)));
    simpl; try reflexivity; qlra.
Defined.

End Lifetime.

(** ** The score pop on screen *)

Section PopOnScreen.
Import BirdGame Painting.
Import String.

(** While a pop is less than 700 ms old, [drawPop] paints it with an
    opacity of [1 - age], [age = (now - time) / 700], which is in (0, 1],
    and writes its text twice, outline then fill, centred on the pop's [x]
    at height [y - 40 - age * 40], between 40 and 80 above its [y]: fully
    opaque and 40 above at its creation, fading and rising from there at
    the same rate.  The text is "+" followed by the pop's value: "+1" for a
    pop of value 1, as the hit test creates them. *)
Theorem drawPop_fades_and_rises (now : Z) (p : Pop.t) :
  (Pop.time p <= now < Pop.time p + 700)%Z ->
  exists alpha ty text,
    drawPop now p
    = [save; setGlobalAlpha alpha;
       setFont "bold 36px Segoe UI, Arial"; setFillStyle "#43a047";
       setStrokeStyle "#fff"; setLineWidth 3;
       setTextAlign "center"; setTextBaseline "middle";
       strokeText text (Pop.x p) ty; fillText text (Pop.x p) ty;
       restore]
    /\ alpha == 1 - inject_Z (now - Pop.time p) / 700
    /\ ty == Pop.y p - 40 - inject_Z (now - Pop.time p) / 700 * 40
    /\ ty == Pop.y p - 80 + alpha * 40
    /\ text = String.append "+" (numberToString (Pop.value p))
    /\ (0 < alpha /\ alpha <= 1)
    /\ (Pop.y p - 80 < ty /\ ty <= Pop.y p - 40)
    /\ (now = Pop.time p -> alpha == 1 /\ ty == Pop.y p - 40)
    /\ (Pop.value p = 1%Z -> text = "+1"%string).
Proof.
  intros [H0 H1]. unfold drawPop. cbv zeta.
  eexists. eexists. eexists. split; [reflexivity | ].
  assert (Ha0 : 0 <= inject_Z (now - Pop.time p))
    by (change 0 with (inject_Z 0); rewrite <- Zle_Qle; lia).
  assert (Ha1 : inject_Z (now - Pop.time p) < 700)
    by (change 700 with (inject_Z 700); rewrite <- Zlt_Qlt; lia).
  set (a := inject_Z (now - Pop.time p)) in *.
  assert (Hage : a / 700 == a * (1 # 700)) by (unfold Qdiv; reflexivity).
  split; [reflexivity | ].
  split; [reflexivity | ].
  split; [ring | ].
  split; [reflexivity | ].
  split; [rewrite Hage; split; qlra | ].
  split; [rewrite Hage; split; qlra | ].
  split.
  - intro Heq. unfold a. rewrite Heq, Z.sub_diag.
    change (inject_Z 0) with 0. split; field.
  - intro Hv. rewrite Hv. reflexivity.
Qed.

Lemma drawPop_fades_and_rises_witness :
  exists alpha ty text,
    drawPop 1350 (Pop.mk 100 100 1 1000)
    = [save; setGlobalAlpha alpha;
       setFont "bold 36px Segoe UI, Arial"; setFillStyle "#43a047";
       setStrokeStyle "#fff"; setLineWidth 3;
       setTextAlign "center"; setTextBaseline "middle";
       strokeText text 100 ty; fillText text 100 ty;
       restore]
    /\ alpha == 0.5 /\ ty == 40 /\ text = "+1"%string.
Proof.
  destruct (drawPop_fades_and_rises 1350 (Pop.mk 100 100 1 1000))
    as (alpha & ty & text & Hops & Halpha & Hty & _ & _ & _ & _ & _ & Htext).
  - simpl. lia.
  - exists alpha, ty, text. split; [exact Hops | ].
    split; [refine (Qeq_trans _ _ _ Halpha _); reflexivity | ].
    split; [refine (Qeq_trans _ _ _ Hty _); reflexivity | ].
    apply Htext. reflexivity.
Defined.

End PopOnScreen.

(** ** The score and the entities spawned *)

Section ScoreBound.
Import handGameUtils BirdGame GameRun Session.

Lemma unhitCount_marked (fx fy : Q) (bs : list Bird) :
  (unhitCount (map (hitOrSame fx fy) bs)
   + length (filter (qualifies fx fy) bs) = unhitCount bs)%nat.
Proof.
  unfold unhitCount. induction bs as [ | b bs IH]; [reflexivity | ].
  cbn [map filter]. unfold hitOrSame at 1, qualifies at 1 2.
  destruct (hit b) eqn:Hh; cbn [negb andb].
  - rewrite Hh. cbn [negb]. exact IH.
  - destruct (root_ltb (dist fx fy (x b) (y b)) (radius b + 18)).
    + cbn [markHit hit negb length]. lia.
    + rewrite Hh. cbn [negb length]. lia.
Qed.

Lemma unhitCount_kept (d : Dims) (bs : list Bird) :
  (unhitCount (flat_map (keepOne d) bs) <= unhitCount bs)%nat.
Proof.
  unfold unhitCount. induction bs as [ | b bs IH]; [simpl; lia | ].
  cbn [flat_map]. rewrite filter_app, length_app.
  unfold keepOne at 1, tickBird, inPlay.
  destruct (hit b) eqn:Hh.
  - replace (hit (moveBird b)) with true by (symmetry; exact Hh).
    rewrite andb_false_r. cbn [filter length]. rewrite Hh. simpl. lia.
  - cbn [filter]. rewrite Hh. cbn [negb length].
    match goal with
    | |- context [if ?c then _ else _] => destruct c
    end; simpl; [rewrite Hh; simpl | ]; lia.
Qed.

(** What one evaluation takes from the entities not yet hit it adds to the
    score. *)
Lemma onResults_conserves (now : Z) (applied : Applied)
      (results : Results) (s : State) :
  (score (snd (onResults now applied results s))
   + Z.of_nat (unhitCount
                 (birdsRef (snd (onResults now applied results s))))
   = score s + Z.of_nat (unhitCount (birdsRef s)))%Z.
Proof.
  rewrite onResults_state.
  destruct (negb (started s) || gameOver s); [reflexivity | ].
  destruct (firstHand results) as [landmarks | ]; [ | reflexivity].
  destruct (isOnlyOneFingerUp landmarks) as [[ | ] | e]; try reflexivity.
  destruct (nth_error landmarks 8) as [tip | ]; [ | reflexivity].
  rewrite hitLoop_closed. cbn [score birdsRef setLastHandLandmarks app].
  pose proof (unhitCount_marked (fingerX (canvasDims s) tip)
                (fingerY (canvasDims s) tip) (birdsRef s)).
  lia.
Qed.

Lemma step_score_bound (s : State) (e : Event) (n : Z) :
  (score s + Z.of_nat (unhitCount (birdsRef s)) <= n)%Z -> (0 <= n)%Z ->
  (score (step s e) + Z.of_nat (unhitCount (birdsRef (step s e)))
   <= n + (if isTick e then 1 else 0))%Z.
Proof.
  intros H Hn. destruct e as [ | | | now rnd | now | now applied results | d];
    cbn [step isTick].
  - destruct (negb (started s)); [simpl; lia | lia].
  - destruct (gameOver s && started s); [simpl; lia | lia].
  - unfold timerTick. destruct (live s); [ | lia].
    destruct (timer s <=? 1)%Z; simpl; lia.
  - destruct (live s) eqn:Hlive.
    + rewrite (gameTick_live now rnd s Hlive). cbn [score birdsRef].
      unfold unhitCount at 1. rewrite filter_app, length_app.
      fold (unhitCount (flat_map (keepOne (canvasDims s)) (birdsRef s))).
      pose proof (unhitCount_kept (canvasDims s) (birdsRef s)).
      assert ((length (filter (fun b => negb (hit b))
                              (spawnedBy now rnd s)) <= 1)%nat).
      { unfold spawnedBy.
        destruct (now - lastBirdSpawn s >? BIRD_SPAWN_INTERVAL)%Z;
          simpl; lia. }
      lia.
    + unfold gameTick. rewrite Hlive. lia.
  - unfold animate. destruct (live s); simpl; lia.
  - rewrite onResults_conserves. lia.
  - simpl. lia.
Qed.

(** In every reachable state the score plus the number of entities not yet
    hit is at most the number of game ticks so far: a tick spawns at most
    one entity and an entity is scored at most once, so the score never
    exceeds the number of entities spawned. *)
Theorem score_never_exceeds_the_ticks (es : list Event) (now : Z)
        (d : Dims) :
  let s := run es (initial now d) in
  (score s + Z.of_nat (unhitCount (birdsRef s))
   <= Z.of_nat (tickCount es))%Z.
Proof.
  cbv zeta. induction es as [ | e es IH] using rev_ind.
  - simpl. lia.
  - rewrite session_run_snoc. unfold tickCount in *.
    rewrite filter_app, length_app, Nat2Z.inj_add.
    pose proof (step_score_bound (run es (initial now d)) e _ IH
                  (Nat2Z.is_nonneg _)) as Hstep.
    cbn [filter]. destruct (isTick e); cbn [length] in *; lia.
Qed.

End ScoreBound.
